(** * duck-ci: the pipeline execution engine of [server.go]

    A shallow embedding of the job runner ([Run]), the step executor
    ([runStep]), the container gateway helpers ([ensureImage],
    [createAndStartContainer], [streamLogs], [waitForContainer]), the
    manifest loader ([loadConfig]) and the job creation path
    ([createJob], the POST branch of [TaskView]).

    The external collaborators (SQLite store, git, the file system, the
    Docker engine, the YAML scanner) are an environment [Env] of handlers
    over an abstract world state; every call the Go code makes on one of
    them is recorded as an [Event], in program order.  [log.Fatal] in the
    store helpers ends the process and is the [Fatal] outcome. *)

From Stdlib Require Import String Ascii List ZArith NArith Bool Lia.
From Stdlib Require Import DecimalString DecimalN.
Import ListNotations.
Open Scope string_scope.
Set Warnings "-register-all".

(** ** Formatting *)

(** [%d] of an unsigned value ([uint32] job ids). *)
Definition fmt_u (n : N) : string := NilEmpty.string_of_uint (N.to_uint n).

(** [%d] of a signed value ([int] loop counters, [int64] exit codes). *)
Definition fmt_d (z : Z) : string := NilZero.string_of_int (Z.to_int z).

(** A Go [error] is represented by its message ([err.Error()], what [%v]
    prints); a nil error is [None]. *)
Definition error := string.

Inductive result (A : Type) : Type :=
| Ok (a : A)
| Err (e : error).
Arguments Ok {A} a.
Arguments Err {A} e.

(** ** Data model (server.go, lines 37-68) *)

Record Project := mkProject {
  ProjectId : N;
  ProjectName : string;
  ProjectRepo : string
}.

Record Job := mkJob {
  Id : N;
  Branch : string;
  Status : string;
  JobProject : Project
}.

Record Step := mkStep {
  Name : string;
  Image : string;
  Runs : string
}.

Record Config := mkConfig {
  Steps : list Step
}.

Definition zero_Step : Step := mkStep EmptyString EmptyString EmptyString.
Definition zero_Config : Config := mkConfig [].

(** ** Manifest decoding: [yaml.Unmarshal(data, &config)]

    The YAML text scanner is a handler of the environment: [yaml_parse]
    gives the node tree of the document and [yaml_lines] the line of
    each of its nodes.  What is embedded here is the decoding of that
    tree into [Config], as gopkg.in/yaml.v2 does it for a non-strict
    [Unmarshal] into the two tagged structs above.  The tag of a scalar
    is its resolved tag, in short form.  Trees are alias-free (an alias
    decodes as its anchor's node).  [base64.StdEncoding.DecodeString],
    which the decoder applies to [!!binary] scalars, is a parameter. *)

Inductive Node : Type :=
| ScalarNode (tag value : string)
| MappingNode (children : list (Node * Node))
| SequenceNode (children : list Node).

Inductive Parsed : Type :=
| ParseError (msg : string)
| NoDocument
| Document (root : Node).

(** The lines of a tree: [n.line] for a node and, in the order of
    [n.children], the lines of its children (for a mapping: key, value,
    key, value, and so on). *)
Inductive Lines : Type :=
| Line (line : Z) (children : list Lines).

Definition line_of (p : Lines) : Z :=
  match p with Line line _ => line end.

Definition lines_of (p : Lines) : list Lines :=
  match p with Line _ children => children end.

(** The lines of a tree written on the first line of its file. *)
Definition no_Lines : Lines := Line 0 [].

Definition first_Lines (ps : list Lines) : Lines := hd no_Lines ps.

Definition yaml_NULL_TAG := "!!null".
Definition yaml_MERGE_TAG := "!!merge".
Definition yaml_MAP_TAG := "!!map".
Definition yaml_SEQ_TAG := "!!seq".
Definition yaml_BINARY_TAG := "!!binary".

(** A scalar resolves to nil exactly when its resolved tag is [!!null]. *)
Definition resolved_nil (tag : string) : bool := tag =? yaml_NULL_TAG.

Definition isMerge (n : Node) : bool :=
  match n with
  | ScalarNode tag value => (value =? "<<") && (tag =? yaml_MERGE_TAG)
  | _ => false
  end.

(** Decoder results: the value, the type errors collected so far
    ([d.terrors]), or a panic ([failf], recovered by [handleErr]). *)
Definition dec (A : Type) : Type := result (A * list string).

Definition dec_ret {A} (a : A) : dec A := Ok (a, []).

Definition dec_bind {A B} (m : dec A) (f : A -> dec B) : dec B :=
  match m with
  | Err msg => Err msg
  | Ok (a, errs) =>
      match f a with
      | Err msg => Err msg
      | Ok (b, errs') => Ok (b, (errs ++ errs')%list)
      end
  end.

Definition excerpt (value : string) : string :=
  if Nat.ltb 10 (String.length value)
  then " `" ++ substring 0 7 value ++ "...`"
  else " `" ++ value ++ "`".

(** [d.terror(n, tag, out)]: record a type error, keep decoding.  The
    message starts with the line of the node, counted from 1. *)
Definition terror {A} (n : Node) (p : Lines) (target : string) (out : A) : dec (A * bool) :=
  let msg :=
    match n with
    | ScalarNode tag value => "cannot unmarshal " ++ tag ++ excerpt value ++ " into " ++ target
    | MappingNode _ => "cannot unmarshal " ++ yaml_MAP_TAG ++ " into " ++ target
    | SequenceNode _ => "cannot unmarshal " ++ yaml_SEQ_TAG ++ " into " ++ target
    end in
  Ok ((out, false), ["line " ++ fmt_d (line_of p + 1) ++ ": " ++ msg]).

Definition failWantMap {A} : dec A :=
  Err "map merge requires map or sequence of maps as the value".

Definition failBinary {A} : dec A :=
  Err "!!binary value contains invalid base64 data".

Section Decoder.

(** [base64.StdEncoding.DecodeString], [None] when it returns an error. *)
Variable base64_DecodeString : string -> option string.

(** What [d.scalar] stores in a string: nothing but the zero value for a
    null, the decoded bytes for a [!!binary] scalar, the text of the
    node for any other; [None] when the [!!binary] text is not base64. *)
Definition scalar_text (tag value : string) : option string :=
  if tag =? yaml_BINARY_TAG then base64_DecodeString value
  else if resolved_nil tag then Some EmptyString
  else Some value.

(** [d.unmarshal(n, out)] for [out] of kind string. *)
Definition unmarshal_string (n : Node) (p : Lines) (out : string) : dec (string * bool) :=
  match n with
  | ScalarNode tag value =>
      match scalar_text tag value with
      | Some text => dec_ret (text, true)
      | None => failBinary
      end
  | _ => terror n p "string" out
  end.

(** [d.scalar] for [out] of a kind that only a null decodes into (a
    struct, a slice of structs): a null sets the zero value, anything
    else is a type error, once a [!!binary] text has been decoded. *)
Definition scalar_into {A} (zero : A) (n : Node) (tag value : string) (p : Lines)
    (target : string) (out : A) : dec (A * bool) :=
  match scalar_text tag value with
  | None => failBinary
  | Some _ => if resolved_nil tag then dec_ret (zero, true) else terror n p target out
  end.

Section Struct.

(** A struct type [T]: its zero value, its Go type name, and its
    [yaml:"..."] fields, each with the decoder of the field. *)
Variable T : Type.
Variable zero : T.
Variable type_name : string.
Variable field : string -> option (Node -> Lines -> T -> dec T).

(** One key/value pair of [mappingStruct], the merge case apart. *)
Definition struct_entry (ni nv : Node) (pi pv : Lines) (out : T) : dec T :=
  dec_bind (unmarshal_string ni pi EmptyString)
    (fun name =>
       if snd name then
         match field (fst name) with
         | Some set => set nv pv out
         | None => dec_ret out
         end
       else dec_ret out).

(** [d.mappingStruct]'s loop over the key/value pairs, [merge] being
    what a merge key does with its value. *)
Definition mappingStruct (merge : Node -> Lines -> T -> dec T) :
    list (Node * Node) -> list Lines -> T -> dec T :=
  fix loop (l : list (Node * Node)) (ps : list Lines) (out : T) {struct l} : dec T :=
    match l with
    | [] => dec_ret out
    | (ni, nv) :: rest =>
        if isMerge ni
        then dec_bind (merge nv (first_Lines (tl ps)) out) (loop rest (tl (tl ps)))
        else dec_bind (struct_entry ni nv (first_Lines ps) (first_Lines (tl ps)) out)
                      (loop rest (tl (tl ps)))
    end.

(** [d.merge] on a sequence: the children from the last to the first,
    each of which must be a mapping. *)
Definition merge_seq (unmarshal : Node -> Lines -> T -> dec (T * bool)) :
    list Node -> list Lines -> T -> dec T :=
  fix loop (l : list Node) (ps : list Lines) (out : T) {struct l} : dec T :=
    match l with
    | [] => dec_ret out
    | ni :: rest =>
        dec_bind (loop rest (tl ps) out)
          (fun out =>
             match ni with
             | MappingNode _ =>
                 dec_bind (unmarshal ni (first_Lines ps) out) (fun r => dec_ret (fst r))
             | _ => failWantMap
             end)
    end.

(** [d.merge]. *)
Definition merge (unmarshal : Node -> Lines -> T -> dec (T * bool))
    (nv : Node) (pv : Lines) (out : T) : dec T :=
  match nv with
  | MappingNode _ => dec_bind (unmarshal nv pv out) (fun r => dec_ret (fst r))
  | SequenceNode items => merge_seq unmarshal items (lines_of pv) out
  | ScalarNode _ _ => failWantMap
  end.

(** [d.unmarshal(n, out)] for [out] of kind struct: [d.scalar],
    [d.sequence], and [d.mapping] -> [d.mappingStruct]. *)
Fixpoint unmarshal_struct (n : Node) (p : Lines) (out : T) {struct n} : dec (T * bool) :=
  match n with
  | ScalarNode tag value => scalar_into zero n tag value p type_name out
  | SequenceNode _ => terror n p type_name out
  | MappingNode children =>
      dec_bind
        (mappingStruct (merge unmarshal_struct) children (lines_of p) out)
        (fun out => dec_ret (out, true))
  end.

End Struct.

(** Decoding into a string field: a failed decode leaves the field as it
    was (the type error is recorded). *)
Definition string_field {T} (get : T -> string) (set : string -> T -> T)
    (nv : Node) (pv : Lines) (out : T) : dec T :=
  dec_bind (unmarshal_string nv pv (get out)) (fun r => dec_ret (set (fst r) out)).

(** [Step]: [yaml:"name"], [yaml:"image"], [yaml:"runs"]. *)
Definition Step_field (name : string) : option (Node -> Lines -> Step -> dec Step) :=
  if name =? "name" then
    Some (string_field Name (fun v s => mkStep v (Image s) (Runs s)))
  else if name =? "image" then
    Some (string_field Image (fun v s => mkStep (Name s) v (Runs s)))
  else if name =? "runs" then
    Some (string_field Runs (fun v s => mkStep (Name s) (Image s) v))
  else None.

Definition unmarshal_Step : Node -> Lines -> Step -> dec (Step * bool) :=
  unmarshal_struct Step zero_Step "main.Step" Step_field.

(** [d.sequence] into [[]Step]: one fresh element per child, kept only
    when its decode was good. *)
Fixpoint sequence_Steps (children : list Node) (ps : list Lines) : dec (list Step) :=
  match children with
  | [] => dec_ret []
  | c :: rest =>
      dec_bind (unmarshal_Step c (first_Lines ps) zero_Step)
        (fun e =>
           dec_bind (sequence_Steps rest (tl ps))
             (fun es => dec_ret (if snd e then fst e :: es else es)))
  end.

(** [d.unmarshal(n, out)] for [out] of type [[]Step]. *)
Definition unmarshal_Steps (n : Node) (p : Lines) (out : list Step) : dec (list Step * bool) :=
  match n with
  | ScalarNode tag value => scalar_into [] n tag value p "[]main.Step" out
  | MappingNode _ => terror n p "[]main.Step" out
  | SequenceNode children =>
      dec_bind (sequence_Steps children (lines_of p)) (fun l => dec_ret (l, true))
  end.

(** [Config]: [yaml:"steps"]. *)
Definition Config_field (name : string) : option (Node -> Lines -> Config -> dec Config) :=
  if name =? "steps" then
    Some (fun nv pv out =>
            dec_bind (unmarshal_Steps nv pv (Steps out))
              (fun r => dec_ret (mkConfig (fst r))))
  else None.

Definition unmarshal_Config : Node -> Lines -> Config -> dec (Config * bool) :=
  unmarshal_struct Config zero_Config "main.Config" Config_field.

Definition TypeError (errors : list string) : error :=
  "yaml: unmarshal errors:" ++ String.concat EmptyString (map (fun e => String "010" "  " ++ e) errors).

(** [yaml.Unmarshal(data, &config)] on the parsed document, [p] being
    the lines of its root. *)
Definition Unmarshal (doc : Parsed) (p : Lines) (out : Config) : Config * option error :=
  match doc with
  | ParseError msg => (out, Some ("yaml: " ++ msg))
  | NoDocument => (out, None)
  | Document root =>
      match unmarshal_Config root p out with
      | Err msg => (out, Some ("yaml: " ++ msg))
      | Ok (r, []) => (fst r, None)
      | Ok (r, errs) => (fst r, Some (TypeError errs))
      end
  end.

End Decoder.

(** ** Log lines

    Every line handed to [PushLog] is built by one [fmt.Sprintf] (or is a
    forwarded output).  A line is kept as the format it comes from with
    its arguments; [render] is the text stored and printed. *)

Inductive LogLine : Type :=
| StartingJob (project : string)
| CloneFailed (err : error)
| CloneOutput (out : string)
| LoadConfigFailed (err : error)
| DockerClientFailed (err : error)
| StartingStep (n : Z) (name : string)
| StepFailed (n : Z) (err : error)
| StepCompleted (n : Z)
| JobCompleted
| ContainerOutput (line : string)
| RemoveWarning (err : error).

Definition render (l : LogLine) : string :=
  match l with
  | StartingJob project => "Starting job for project: " ++ project
  | CloneFailed err => "Failed to clone repository: " ++ err
  | CloneOutput out => out
  | LoadConfigFailed err => "Failed to load configuration: " ++ err
  | DockerClientFailed err => "Failed to create Docker client: " ++ err
  | StartingStep n name => "Starting step " ++ fmt_d n ++ ": " ++ name
  | StepFailed n err => "Step " ++ fmt_d n ++ " failed: " ++ err
  | StepCompleted n => "Step " ++ fmt_d n ++ " completed successfully"
  | JobCompleted => "Job completed successfully"
  | ContainerOutput line => line
  | RemoveWarning err => "Warning: Failed to remove container: " ++ err
  end.

(** ** The Docker API values the engine builds and reads *)

Record ImageSummary := mkImage {
  RepoTags : list string
}.

Record ContainerConfig := mkContainerConfig {
  cfgImage : string;
  WorkingDir : string;
  Cmd : list string;
  Tty : bool
}.

Record HostConfig := mkHostConfig {
  Binds : list string
}.

(** The content of a container's followed log stream: the lines the
    scanner yields until the stream closes, and [scanner.Err()]. *)
Record LogStream := mkLogStream {
  stream_lines : list string;
  stream_err : option error
}.

(** What [select] receives in [waitForContainer]. *)
Inductive WaitResult : Type :=
| FromErrCh (err : error)
| FromStatusCh (StatusCode : Z).

(** ** Events: the calls made on the collaborators, in program order

    [DbInsertJob], [DbGetJob], [DbInsertLog] and [DbUpdateStatus] are the
    four SQL statements of [createJob], [getJobById], [inertLog] and
    [updateJobStatus]; [Println] is [log.Println]; [GitClone] is the
    [git clone -b branch repo path] command; [ReadFile] is [os.ReadFile];
    [NewClient] is [docker.NewClientWithOpts]; [PullCopy] is
    [io.Copy(io.Discard, out)] on the stream of [ImagePull], [PullClose]
    and [LogsClose] the deferred [out.Close()]; the others carry the name
    of the Docker client method.  [EnterRunStep] records that [runStep]
    is called. *)

Inductive Event : Type :=
| DbInsertJob (projectId branch : string) (status : Z)
| DbGetJob (id : string)
| DbInsertLog (jobId : N) (l : LogLine)
| DbUpdateStatus (jobId : N) (status : Z)
| Println (s : string)
| GitClone (branch repo path : string)
| ReadFile (path : string)
| NewClient
| EnterRunStep (step : Step) (repoPath : string)
| ImageList
| ImagePull (image : string)
| PullCopy (image : string)
| PullClose (image : string)
| ContainerCreate (config : ContainerConfig) (host : HostConfig)
| ContainerStart (id : string)
| ContainerLogs (id : string)
| LogsClose (id : string)
| ContainerWait (id : string)
| ContainerRemove (id : string).

(** ** The environment: one handler per external call

    A handler takes the arguments of the call and the world, and gives
    the next world and what the call returns: a [result] for a value and
    an error, an [option error] for an error alone.  [git_clone] gives
    the combined output and the error of the command; [yaml_parse] and
    [yaml_lines] are the YAML scanner (the node tree of a text, and the
    lines of its nodes), [base64_DecodeString] is base64's decoder
    ([None] for an error) and [filepath_Join] is [filepath.Join], all
    pure. *)

Set Implicit Arguments.

Record Env (W : Type) : Type := mkEnv {
  db_insert_job : string -> string -> Z -> W -> W * result N;
  db_get_job : string -> W -> W * result Job;
  db_insert_log : N -> string -> W -> W * option error;
  db_update_status : N -> Z -> W -> W * option error;
  git_clone : string -> string -> string -> W -> W * (string * option error);
  filepath_Join : string -> string -> string;
  read_file : string -> W -> W * result string;
  yaml_parse : string -> Parsed;
  yaml_lines : string -> Lines;
  base64_DecodeString : string -> option string;
  docker_new_client : W -> W * option error;
  image_list : W -> W * result (list ImageSummary);
  image_pull : string -> W -> W * option error;
  pull_copy : string -> W -> W * option error;
  container_create : ContainerConfig -> HostConfig -> W -> W * result string;
  container_start : string -> W -> W * option error;
  container_logs : string -> W -> W * result LogStream;
  container_wait : string -> W -> W * WaitResult;
  container_remove : string -> W -> W * option error
}.

Unset Implicit Arguments.

(** ** The engine *)

Inductive outcome (A : Type) : Type :=
| Done (a : A)
| Fatal (err : error).
Arguments Done {A} a.
Arguments Fatal {A} err.

Record Res (W A : Type) : Type := mkRes {
  trace : list Event;
  world : W;
  out : outcome A
}.
Arguments mkRes {W A} trace world out.
Arguments trace {W A} r.
Arguments world {W A} r.
Arguments out {W A} r.

Definition M (W A : Type) : Type := W -> Res W A.

Definition ret {W A} (a : A) : M W A := fun w => mkRes [] w (Done a).

Definition bind {W A B} (m : M W A) (f : A -> M W B) : M W B :=
  fun w =>
    let r := m w in
    match out r with
    | Done a =>
        let r' := f a (world r) in
        mkRes (trace r ++ trace r')%list (world r') (out r')
    | Fatal err => mkRes (trace r) (world r) (Fatal err)
    end.

(** One external call: record the event, let the handler answer. *)
Definition call {W A} (ev : Event) (h : W -> W * A) : M W A :=
  fun w => mkRes [ev] (fst (h w)) (Done (snd (h w))).

(** An event that leaves the world as it is: the entry into the step
    executor, a line printed by [log.Println], a stream closed. *)
Definition mark {W} (ev : Event) : M W unit :=
  fun w => mkRes [ev] w (Done tt).

(** [log.Fatal(err)]: the process exits. *)
Definition log_Fatal {W A} (err : error) : M W A :=
  fun w => mkRes [] w (Fatal err).

Notation "x <- m ;; k" := (bind m (fun x => k))
  (at level 61, m at next level, right associativity).
Notation "m ;;; k" := (bind m (fun _ => k))
  (at level 61, right associativity).

Section Engine.

Variable W : Type.
Variable env : Env W.

(** [Storage.inertLog], lines 186-192. *)
Definition inertLog (jobId : N) (l : LogLine) : M W unit :=
  err <- call (DbInsertLog jobId l) (db_insert_log env jobId (render l)) ;;
  match err with
  | Some e => log_Fatal e
  | None => ret tt
  end.

(** [Storage.updateJobStatus], lines 178-184, through
    [DuckCI.updateJobStatus], lines 502-504. *)
Definition updateJobStatus (job : Job) (status : Z) : M W unit :=
  err <- call (DbUpdateStatus (Id job) status) (db_update_status env (Id job) status) ;;
  match err with
  | Some e => log_Fatal e
  | None => ret tt
  end.

(** [PushLog], lines 320-323. *)
Definition PushLog (job : Job) (l : LogLine) : M W unit :=
  inertLog (Id job) l ;;;
  mark (Println (render l)).

(** [Storage.getJobById], lines 194-208. *)
Definition getJobById (id : string) : M W (result Job) :=
  call (DbGetJob id) (db_get_job env id).

(** [Storage.createJob], lines 151-159: the row is inserted with
    status -1. *)
Definition createJob (projectId branch : string) : M W (result Job) :=
  r <- call (DbInsertJob projectId branch (-1)) (db_insert_job env projectId branch (-1)) ;;
  match r with
  | Err e => ret (Err e)
  | Ok id => getJobById (fmt_u id)
  end.

(** The working directory of a job, line 367. *)
Definition repoPath_of (job : Job) : string :=
  "/tmp/duck-ci/" ++ ProjectName (JobProject job) ++ "-task-" ++ fmt_u (Id job).

(** [cloneRepository], lines 366-375. *)
Definition cloneRepository (job : Job) : M W (result string) :=
  let repoPath := repoPath_of job in
  r <- call (GitClone (Branch job) (ProjectRepo (JobProject job)) repoPath)
            (git_clone env (Branch job) (ProjectRepo (JobProject job)) repoPath) ;;
  match snd r with
  | Some err => ret (Err ("git clone error: " ++ err ++ ", output: " ++ fst r))
  | None => PushLog job (CloneOutput (fst r)) ;;; ret (Ok repoPath)
  end.

(** [loadConfig], lines 377-389. *)
Definition loadConfig (repoPath : string) : M W (result Config) :=
  let configPath := filepath_Join env repoPath "duck-ci.yml" in
  r <- call (ReadFile configPath) (read_file env configPath) ;;
  match r with
  | Err err => ret (Err ("failed to read config file: " ++ err))
  | Ok data =>
      match Unmarshal (base64_DecodeString env) (yaml_parse env data) (yaml_lines env data)
                      zero_Config with
      | (_, Some err) => ret (Err ("failed to parse config file: " ++ err))
      | (config, None) => ret (Ok config)
      end
  end.

(** The two nested [range] loops of [ensureImage], lines 430-436. *)
Definition has_tag (images : list ImageSummary) (imageName : string) : bool :=
  existsb (fun image => existsb (fun tag => tag =? imageName) (RepoTags image)) images.

(** [ensureImage], lines 424-446. *)
Definition ensureImage (imageName : string) : M W (option error) :=
  r <- call ImageList (image_list env) ;;
  match r with
  | Err err => ret (Some err)
  | Ok images =>
      if has_tag images imageName then ret None
      else
        err <- call (ImagePull imageName) (image_pull env imageName) ;;
        match err with
        | Some e => ret (Some e)
        | None =>
            err <- call (PullCopy imageName) (pull_copy env imageName) ;;
            mark (PullClose imageName) ;;;
            ret err
        end
  end.

(** [createAndStartContainer], lines 448-471. *)
Definition createAndStartContainer (step : Step) (repoPath : string) : M W (result string) :=
  let containerConfig :=
    mkContainerConfig (Image step) "/app" ["/bin/sh"; "-c"; Runs step] true in
  let hostConfig := mkHostConfig [repoPath ++ ":/app"] in
  resp <- call (ContainerCreate containerConfig hostConfig)
               (container_create env containerConfig hostConfig) ;;
  match resp with
  | Err err => ret (Err err)
  | Ok ID =>
      err <- call (ContainerStart ID) (container_start env ID) ;;
      match err with
      | Some e => ret (Err e)
      | None => ret (Ok ID)
      end
  end.

(** The [scanner.Scan()] loop of [streamLogs], lines 485-487. *)
Fixpoint push_lines (job : Job) (lines : list string) : M W unit :=
  match lines with
  | [] => ret tt
  | line :: rest => PushLog job (ContainerOutput line) ;;; push_lines job rest
  end.

(** [streamLogs], lines 473-490. *)
Definition streamLogs (job : Job) (containerID : string) : M W (option error) :=
  r <- call (ContainerLogs containerID) (container_logs env containerID) ;;
  match r with
  | Err err => ret (Some err)
  | Ok stream =>
      push_lines job (stream_lines stream) ;;;
      mark (LogsClose containerID) ;;;
      ret (stream_err stream)
  end.

(** [waitForContainer], lines 492-500. *)
Definition waitForContainer (containerID : string) : M W (Z * option error) :=
  r <- call (ContainerWait containerID) (container_wait env containerID) ;;
  match r with
  | FromErrCh err => ret ((-1)%Z, Some err)
  | FromStatusCh StatusCode => ret (StatusCode, None)
  end.

(** [runStep], lines 391-422. *)
Definition runStep (job : Job) (step : Step) (repoPath : string) : M W (option error) :=
  mark (EnterRunStep step repoPath) ;;;
  err <- ensureImage (Image step) ;;
  match err with
  | Some e => ret (Some ("failed to ensure image: " ++ e))
  | None =>
      r <- createAndStartContainer step repoPath ;;
      match r with
      | Err e => ret (Some ("failed to create and start container: " ++ e))
      | Ok containerID =>
          err <- streamLogs job containerID ;;
          match err with
          | Some e => ret (Some ("failed to stream logs: " ++ e))
          | None =>
              r <- waitForContainer containerID ;;
              match snd r with
              | Some e => ret (Some ("failed to wait for container: " ++ e))
              | None =>
                  let statusCode := fst r in
                  err <- call (ContainerRemove containerID) (container_remove env containerID) ;;
                  match err with
                  | Some e => PushLog job (RemoveWarning e)
                  | None => ret tt
                  end ;;;
                  if negb (statusCode =? 0)%Z
                  then ret (Some ("step failed with status code: " ++ fmt_d statusCode))
                  else ret None
              end
          end
      end
  end.

(** The [for i, step := range config.Steps] loop of [Run] and what
    follows it, lines 349-363; [i] is the index of the head of [steps]. *)
Fixpoint run_steps (job : Job) (repoPath : string) (i : Z) (steps : list Step) : M W unit :=
  match steps with
  | [] =>
      PushLog job JobCompleted ;;;
      updateJobStatus job 0
  | step :: rest =>
      PushLog job (StartingStep (i + 1) (Name step)) ;;;
      err <- runStep job step repoPath ;;
      match err with
      | Some e =>
          PushLog job (StepFailed (i + 1) e) ;;;
          updateJobStatus job (-1)
      | None =>
          PushLog job (StepCompleted (i + 1)) ;;;
          run_steps job repoPath (i + 1) rest
      end
  end.

(** [Run], lines 325-364. *)
Definition Run (job : Job) : M W unit :=
  PushLog job (StartingJob (ProjectName (JobProject job))) ;;;
  r <- cloneRepository job ;;
  match r with
  | Err err =>
      PushLog job (CloneFailed err) ;;;
      updateJobStatus job (-1)
  | Ok repoPath =>
      r <- loadConfig repoPath ;;
      match r with
      | Err err =>
          PushLog job (LoadConfigFailed err) ;;;
          updateJobStatus job (-1)
      | Ok config =>
          err <- call NewClient (docker_new_client env) ;;
          match err with
          | Some e =>
              PushLog job (DockerClientFailed e) ;;;
              updateJobStatus job (-1)
          | None => run_steps job repoPath 0 (Steps config)
          end
      end
  end.

(** The POST branch of [TaskView], lines 306-317, as the store sees it:
    the job is created, then [go ci.Run(&job)] runs it.  Only this run
    writes the job's status, so its writes follow the creation in the
    order given here whatever else is running; the HTTP answers are left
    out. *)
Definition TaskView_post (projectId branch : string) : M W unit :=
  r <- createJob projectId branch ;;
  match r with
  | Err _ => ret tt
  | Ok job => Run job
  end.

End Engine.

Arguments inertLog {W} env.
Arguments updateJobStatus {W} env.
Arguments PushLog {W} env.
Arguments getJobById {W} env.
Arguments createJob {W} env.
Arguments cloneRepository {W} env.
Arguments loadConfig {W} env.
Arguments ensureImage {W} env.
Arguments createAndStartContainer {W} env.
Arguments push_lines {W} env.
Arguments streamLogs {W} env.
Arguments waitForContainer {W} env.
Arguments runStep {W} env.
Arguments run_steps {W} env.
Arguments Run {W} env.
Arguments TaskView_post {W} env.

(** ** Reading a run: where a computation returns, and what it leaves *)

Definition returns {W A} (m : M W A) (w : W) (a : A) : Prop := out (m w) = Done a.

Definition after {W A} (m : M W A) (w : W) : W := world (m w).

(** The sub-list of a trace picked by a partial observation. *)
Fixpoint pick {A} (f : Event -> option A) (tr : list Event) : list A :=
  match tr with
  | [] => []
  | ev :: rest =>
      match f ev with
      | Some a => a :: pick f rest
      | None => pick f rest
      end
  end.

(** The status values sent to the store: at creation and by updates. *)
Definition status_of (ev : Event) : option Z :=
  match ev with
  | DbInsertJob _ _ status => Some status
  | DbUpdateStatus _ status => Some status
  | _ => None
  end.

Definition status_writes : list Event -> list Z := pick status_of.

Definition status_updates : list Event -> list (N * Z) :=
  pick (fun ev => match ev with DbUpdateStatus id s => Some (id, s) | _ => None end).

(** The "Starting step" lines of line 350: number and step name. *)
Definition starting_of (l : LogLine) : option (Z * string) :=
  match l with
  | StartingStep n name => Some (n, name)
  | _ => None
  end.

Definition announce_of (ev : Event) : option (Z * string) :=
  match ev with
  | DbInsertLog _ l => starting_of l
  | _ => None
  end.

Definition starting_steps : list Event -> list (Z * string) := pick announce_of.

(** The steps the Step Executor was invoked on. *)
Definition call_of (ev : Event) : option Step :=
  match ev with
  | EnterRunStep step _ => Some step
  | _ => None
  end.

Definition run_step_calls : list Event -> list Step := pick call_of.

(** The containers asked of the engine. *)
Definition create_of (ev : Event) : option ContainerConfig :=
  match ev with
  | ContainerCreate c _ => Some c
  | _ => None
  end.

Definition container_creates : list Event -> list ContainerConfig := pick create_of.

Definition container_starts : list Event -> list string :=
  pick (fun ev => match ev with ContainerStart id => Some id | _ => None end).

Definition container_removes : list Event -> list string :=
  pick (fun ev => match ev with ContainerRemove id => Some id | _ => None end).

(** The container [createAndStartContainer] asks for a step. *)
Definition container_of (step : Step) : ContainerConfig :=
  mkContainerConfig (Image step) "/app" ["/bin/sh"; "-c"; Runs step] true.

(** The lines of line 350 for [steps], the first of which has index [i]. *)
Fixpoint announced (i : Z) (steps : list Step) : list (Z * string) :=
  match steps with
  | [] => []
  | step :: rest => (i + 1, Name step)%Z :: announced (i + 1) rest
  end.

(** A log line that reports a failure of the run. *)
Definition failure_line (l : LogLine) : Prop :=
  match l with
  | CloneFailed _ | LoadConfigFailed _ | DockerClientFailed _ | StepFailed _ _ => True
  | _ => False
  end.

(** [among l1 l2]: [l1] is [l2] with some elements left out, the others
    in their order. *)
Inductive among {A : Type} : list A -> list A -> Prop :=
| among_done : among [] []
| among_drop (x : A) (l1 l2 : list A) (rest : among l1 l2) : among l1 (x :: l2)
| among_take (x : A) (l1 l2 : list A) (rest : among l1 l2) : among (x :: l1) (x :: l2).

Section Scenarios.

Variable W : Type.
Variable env : Env W.
Variable job : Job.

(** The run gets as far as the step loop: the job is announced, the
    clone gives [repoPath], the manifest loads as [config], the Docker
    client is created; [w'] is the world the loop starts in. *)
Definition reaches_loop (w : W) (repoPath : string) (config : Config) (w' : W) : Prop :=
  let start := PushLog env job (StartingJob (ProjectName (JobProject job))) in
  let w1 := after start w in
  let w2 := after (cloneRepository env job) w1 in
  let w3 := after (loadConfig env repoPath) w2 in
  returns start w tt /\
  returns (cloneRepository env job) w1 (Ok repoPath) /\
  returns (loadConfig env repoPath) w2 (Ok config) /\
  snd (docker_new_client env w3) = None /\
  w' = fst (docker_new_client env w3).

(** One iteration of the loop on [step], of index [i], passes from [w]
    to [w']: its three lines are stored and the executor returns nil. *)
Definition step_passes (repoPath : string) (i : Z) (step : Step) (w w' : W) : Prop :=
  let starting := PushLog env job (StartingStep (i + 1) (Name step)) in
  let w1 := after starting w in
  let w2 := after (runStep env job step repoPath) w1 in
  returns starting w tt /\
  returns (runStep env job step repoPath) w1 None /\
  returns (PushLog env job (StepCompleted (i + 1))) w2 tt /\
  w' = after (PushLog env job (StepCompleted (i + 1))) w2.

(** The iteration on [step] fails with [e]; [w'] is the world the
    executor leaves. *)
Definition step_fails (repoPath : string) (i : Z) (step : Step) (w : W) (e : error) (w' : W) : Prop :=
  let starting := PushLog env job (StartingStep (i + 1) (Name step)) in
  let w1 := after starting w in
  returns starting w tt /\
  returns (runStep env job step repoPath) w1 (Some e) /\
  w' = after (runStep env job step repoPath) w1.

(** Every step of a list passes, one after the other. *)
Inductive steps_pass (repoPath : string) : Z -> list Step -> W -> W -> Prop :=
| steps_pass_nil i w : steps_pass repoPath i [] w w
| steps_pass_cons i step rest w w1 w' :
    step_passes repoPath i step w w1 ->
    steps_pass repoPath (i + 1) rest w1 w' ->
    steps_pass repoPath i (step :: rest) w w'.

(** The container of a step was started and its output streamed to the
    end: [containerID] is the container, [w'] the world after the
    stream. *)
Definition step_streamed (step : Step) (repoPath : string) (w : W)
    (containerID : string) (w' : W) : Prop :=
  let w1 := after (ensureImage env (Image step)) w in
  let w2 := after (createAndStartContainer env step repoPath) w1 in
  returns (ensureImage env (Image step)) w None /\
  returns (createAndStartContainer env step repoPath) w1 (Ok containerID) /\
  returns (streamLogs env job containerID) w2 None /\
  w' = after (streamLogs env job containerID) w2.

End Scenarios.

Arguments reaches_loop {W} env job.
Arguments step_passes {W} env job.
Arguments step_fails {W} env job.
Arguments steps_pass {W} env job.
Arguments steps_pass_nil {W} env job.
Arguments steps_pass_cons {W} env job.
Arguments step_streamed {W} env job.

(** ** A laboratory environment

    A deterministic stand-in for the collaborators, used to run the
    engine on concrete jobs.  The world is the number of calls answered.
    The manifest file and the document the scanner reads from it are
    parameters, the manifest being written on one line; the base64
    texts that decode are those of ["steps"] and ["version"];
    containers are named after their command, exit with 3 on
    ["exit 3"], lose their log stream on ["flood"], cannot be waited for
    on ["hang"] and cannot be removed on ["sticky"]. *)

Definition lab_job : Job :=
  mkJob 7 "main" "-1" (mkProject 1 "demo" "https://example.org/demo.git").

Definition lab (file : result string) (doc : Parsed) : Env nat :=
  {| db_insert_job := fun _ _ _ w => (S w, Ok 7%N);
     db_get_job := fun _ w => (S w, Ok lab_job);
     db_insert_log := fun _ _ w => (S w, None);
     db_update_status := fun _ _ w => (S w, None);
     git_clone := fun _ repo _ w =>
       if repo =? "https://example.org/gone.git"
       then (S w, ("fatal: repository not found", Some "exit status 128"))
       else (S w, ("Cloning into 'demo'...", None));
     filepath_Join := fun dir name => dir ++ "/" ++ name;
     read_file := fun _ w => (S w, file);
     yaml_parse := fun _ => doc;
     yaml_lines := fun _ => no_Lines;
     base64_DecodeString := fun text =>
       if text =? "c3RlcHM=" then Some "steps"
       else if text =? "dmVyc2lvbg==" then Some "version"
       else None;
     docker_new_client := fun w => (S w, None);
     image_list := fun w => (S w, Ok [mkImage ["busybox:latest"]; mkImage ["alpine"; "alpine:3"]]);
     image_pull := fun image w =>
       (S w, if image =? EmptyString then Some "invalid reference format" else None);
     pull_copy := fun _ w => (S w, None);
     container_create := fun c _ w => (S w, Ok (nth 2 (Cmd c) EmptyString));
     container_start := fun _ w => (S w, None);
     container_logs := fun id w =>
       (S w, Ok (if id =? "flood"
                 then mkLogStream ["aaaa"] (Some "bufio.Scanner: token too long")
                 else mkLogStream ["+ " ++ id] None));
     container_wait := fun id w =>
       (S w, if id =? "exit 3" then FromStatusCh 3
             else if id =? "hang" then FromErrCh "context canceled"
             else FromStatusCh 0);
     container_remove := fun id w =>
       (S w, if id =? "sticky" then Some "removal in progress" else None) |}.

Definition str (value : string) : Node := ScalarNode "!!str" value.

(** The tree of [steps: [{name: ..., image: ..., runs: ...}, ...]]. *)
Definition step_node (step : Step) : Node :=
  MappingNode [(str "name", str (Name step)); (str "image", str (Image step));
               (str "runs", str (Runs step))].

Definition manifest_of (steps : list Step) : Parsed :=
  Document (MappingNode [(str "steps", SequenceNode (map step_node steps))]).

(** A step object that gives only some of its fields. *)
Record StepObject := mkStepObject {
  obj_name : option string;
  obj_image : option string;
  obj_runs : option string
}.

Definition entry_of (key : string) (value : option string) : list (Node * Node) :=
  match value with
  | Some v => [(str key, str v)]
  | None => []
  end.

Definition object_node (o : StepObject) : Node :=
  MappingNode (entry_of "name" (obj_name o) ++ entry_of "image" (obj_image o)
               ++ entry_of "runs" (obj_runs o))%list.

Definition or_empty (value : option string) : string :=
  match value with
  | Some v => v
  | None => EmptyString
  end.

Definition step_of_object (o : StepObject) : Step :=
  mkStep (or_empty (obj_name o)) (or_empty (obj_image o)) (or_empty (obj_runs o)).

(** ** Notions used by the proofs *)

(** Every event a computation records satisfies [P], whatever the world. *)
Definition emits {W A} (P : Event -> Prop) (m : M W A) : Prop :=
  forall w, Forall P (trace (m w)).

(** An event that writes no job status. *)
Definition quiet (ev : Event) : Prop := status_of ev = None.

(** An event that is no "Starting step" line, no entry into the step
    executor and no container creation. *)
Definition plain (ev : Event) : Prop :=
  announce_of ev = None /\ call_of ev = None /\ create_of ev = None.

(** The verdict of a run: its last log line and the status it writes. *)
Definition verdict (l : LogLine) (status : Z) : Prop :=
  (l = JobCompleted /\ status = 0%Z) \/ (failure_line l /\ status = (-1)%Z).

(** How a run ends: with a last log line and the status that goes with
    it, the status update being its last call on the store. *)
Definition closing (job : Job) (l : LogLine) (status : Z) : list Event :=
  [DbInsertLog (Id job) l; Println (render l); DbUpdateStatus (Id job) status].

(** A run has settled its job: nothing before its end writes a status,
    and either it ends with a verdict, or [log.Fatal] stopped it before
    any status update. *)
Definition settles {W} (job : Job) (r : Res W unit) : Prop :=
  exists t, Forall quiet t /\
    ((exists l status, trace r = (t ++ closing job l status)%list /\ verdict l status) \/
     (trace r = t /\ exists e, out r = Fatal e)).

(** [Run], started in [w], ends on the last line [l] with status
    [status]: after the events [t], from the world [w'], it does the
    final [PushLog] and [updateJobStatus] and nothing else. *)
Definition ends {W} (env : Env W) (job : Job) (w : W) (t : list Event)
    (l : LogLine) (status : Z) (w' : W) : Prop :=
  Run env job w =
  mkRes (t ++ trace ((PushLog env job l ;;; updateJobStatus env job status) w'))%list
        (world ((PushLog env job l ;;; updateJobStatus env job status) w'))
        (out ((PushLog env job l ;;; updateJobStatus env job status) w')).

(** The store accepts every write: no log insert and no status update
    returns an error. *)
Definition reliable {W} (env : Env W) : Prop :=
  (forall jobId text w, snd (db_insert_log env jobId text w) = None) /\
  (forall jobId status w, snd (db_update_status env jobId status w) = None).

(** A computation that [log.Fatal] never stops. *)
Definition survives {W A} (m : M W A) : Prop :=
  forall w, exists a, out (m w) = Done a.

(** An event that removes no container. *)
Definition keeps (ev : Event) : Prop :=
  match ev with
  | ContainerRemove _ => False
  | _ => True
  end.

(** A decode that has recorded a type error, or has panicked. *)
Definition failed {A} (m : dec A) : Prop :=
  match m with
  | Ok (_, errs) => errs <> []
  | Err _ => True
  end.

(** A value of [steps] that is a mapping, or a scalar that is not null. *)
Definition neither_list_nor_null (v : Node) : Prop :=
  match v with
  | MappingNode _ => True
  | ScalarNode tag _ => resolved_nil tag = false
  | SequenceNode _ => False
  end.

(** The lines of the entries of a mapping after its first [i] (each
    entry has two: its key's and its value's). *)
Fixpoint lines_after (i : nat) (ps : list Lines) : list Lines :=
  match i with
  | O => ps
  | S i => lines_after i (tl (tl ps))
  end.

(** The lines of the entries of a mapping, entry number [i] left out. *)
Fixpoint lines_without (i : nat) (ps : list Lines) : list Lines :=
  match i with
  | O => tl (tl ps)
  | S i => first_Lines ps :: first_Lines (tl ps) :: lines_without i (tl (tl ps))
  end.

Definition without_entry (i : nat) (p : Lines) : Lines :=
  Line (line_of p) (lines_without i (lines_of p)).

(** The characters [%d] prints for an unsigned value. *)
Definition is_digit (c : ascii) : bool :=
  let n := nat_of_ascii c in Nat.leb 48 n && Nat.leb n 57.

Fixpoint all_digits (s : string) : bool :=
  match s with
  | EmptyString => true
  | String c rest => is_digit c && all_digits rest
  end.

(** ** A laboratory with faults

    The laboratory above, with a store and an engine that fail on
    chosen inputs: the job insert on branch ["locked"], the read-back of
    job 8 (the id given on branch ["ghost"]), the log insert of the text
    ["+ poison"] (what the container of the command [poison] prints),
    the creation of a container from image ["scratch"], the
    start of the container ["stuck"]. *)

Definition lab_faulty (file : result string) (doc : Parsed) : Env nat :=
  {| db_insert_job := fun _ branch _ w =>
       (S w, if branch =? "locked" then Err "database is locked"
             else if branch =? "ghost" then Ok 8%N else Ok 7%N);
     db_get_job := fun id w =>
       (S w, if id =? "8" then Err "sql: no rows in result set" else Ok lab_job);
     db_insert_log := fun _ text w =>
       (S w, if text =? "+ poison" then Some "database is locked" else None);
     db_update_status := db_update_status (lab file doc);
     git_clone := git_clone (lab file doc);
     filepath_Join := filepath_Join (lab file doc);
     read_file := read_file (lab file doc);
     yaml_parse := yaml_parse (lab file doc);
     yaml_lines := yaml_lines (lab file doc);
     base64_DecodeString := base64_DecodeString (lab file doc);
     docker_new_client := docker_new_client (lab file doc);
     image_list := image_list (lab file doc);
     image_pull := image_pull (lab file doc);
     pull_copy := pull_copy (lab file doc);
     container_create := fun c h w =>
       if cfgImage c =? "scratch" then (S w, Err "No command specified")
       else container_create (lab file doc) c h w;
     container_start := fun id w =>
       (S w, if id =? "stuck" then Some "OCI runtime create failed" else None);
     container_logs := container_logs (lab file doc);
     container_wait := container_wait (lab file doc);
     container_remove := container_remove (lab file doc) |}.

(** ** Further readings of a trace *)

(** The lines sent to the log table, with the job they are filed under. *)
Definition stored_of (ev : Event) : option (N * LogLine) :=
  match ev with
  | DbInsertLog jobId l => Some (jobId, l)
  | _ => None
  end.

Definition stored_lines : list Event -> list (N * LogLine) := pick stored_of.

(** The texts printed on the server's own log. *)
Definition printed_of (ev : Event) : option string :=
  match ev with
  | Println s => Some s
  | _ => None
  end.

Definition printed : list Event -> list string := pick printed_of.

(** The calls on containers: create, start, logs, wait, remove. *)
Definition lifecycle_of (ev : Event) : option Event :=
  match ev with
  | ContainerCreate _ _ | ContainerStart _ | ContainerLogs _
  | ContainerWait _ | ContainerRemove _ => Some ev
  | _ => None
  end.

Definition lifecycle : list Event -> list Event := pick lifecycle_of.

(** The "Step n completed successfully" lines of line 359. *)
Definition completed_of (ev : Event) : option Z :=
  match ev with
  | DbInsertLog _ (StepCompleted n) => Some n
  | _ => None
  end.

Definition completed_steps : list Event -> list Z := pick completed_of.

(** What [streamLogs] records for the lines of a stream, all stored. *)
Definition forwarded (job : Job) (lines : list string) : list Event :=
  flat_map (fun line => [DbInsertLog (Id job) (ContainerOutput line); Println line]) lines.

(** An event that writes to the store only under the id of [job], and
    neither creates nor reads a job. *)
Definition targets (job : Job) (ev : Event) : Prop :=
  match ev with
  | DbInsertLog jobId _ => jobId = Id job
  | DbUpdateStatus jobId _ => jobId = Id job
  | DbInsertJob _ _ _ | DbGetJob _ => False
  | _ => True
  end.

(** An event that touches no container. *)
Definition offstage (ev : Event) : Prop := lifecycle_of ev = None.

(** The numbers 1 to n of the steps of a list whose first has index [i]. *)
Fixpoint numbered (i : Z) (steps : list Step) : list Z :=
  match steps with
  | [] => []
  | _ :: rest => (i + 1)%Z :: numbered (i + 1) rest
  end.

(** The events [runStep] can record for a job: its own entry, the calls
    on images and containers, and, in the store, only forwarded output
    and the removal warning, filed under the job. *)
Definition step_event (job : Job) (ev : Event) : Prop :=
  match ev with
  | EnterRunStep _ _ | ImageList | ImagePull _ | PullCopy _ | PullClose _
  | ContainerCreate _ _ | ContainerStart _ | ContainerLogs _ | LogsClose _
  | ContainerWait _ | ContainerRemove _ | Println _ => True
  | DbInsertLog jobId (ContainerOutput _) => jobId = Id job
  | DbInsertLog jobId (RemoveWarning _) => jobId = Id job
  | _ => False
  end.

(** The events [Run] can record before the step loop. *)
Definition prelude_event (job : Job) (ev : Event) : Prop :=
  match ev with
  | GitClone _ _ _ | ReadFile _ | NewClient | Println _ => True
  | DbInsertLog jobId (StartingJob _) => jobId = Id job
  | DbInsertLog jobId (CloneOutput _) => jobId = Id job
  | _ => False
  end.

(** The calls on the container of a step that passes: one whole
    life, from creation to removal. *)
Definition whole_lifecycle (repoPath : string) (p : Step * string) : list Event :=
  [ContainerCreate (container_of (fst p)) (mkHostConfig [repoPath ++ ":/app"]);
   ContainerStart (snd p); ContainerLogs (snd p);
   ContainerWait (snd p); ContainerRemove (snd p)].

(** ** The store and the server's log, side by side *)

(** The text of a line sent to the log table. *)
Definition text_of (p : N * LogLine) : string := render (snd p).

(** A write to the store by a run: a log insert or a status update. *)
Definition store_write (ev : Event) : Prop :=
  match ev with
  | DbInsertLog _ _ | DbUpdateStatus _ _ => True
  | _ => False
  end.

(** The server's log holds the texts sent to the log table, in order. *)
Definition mirrored (t : list Event) : Prop :=
  printed t = map text_of (stored_lines t).

(** An event that is neither a log insert nor a printed line. *)
Definition silent (ev : Event) : Prop :=
  stored_of ev = None /\ printed_of ev = None.

(** A computation keeps the two logs in step: where it returns they
    mirror each other; where [log.Fatal] stops it, they did up to its
    last call, and this call is the write the store refused. *)
Definition journal {W A} (m : M W A) : Prop :=
  forall w,
    match out (m w) with
    | Done _ => mirrored (trace (m w))
    | Fatal _ =>
        exists t ev, trace (m w) = (t ++ [ev])%list /\ store_write ev /\ mirrored t
    end.

(** The lines of a record that are filed for [job] and are container
    output or a removal warning. *)
Definition step_line (job : Job) (p : N * LogLine) : Prop :=
  fst p = Id job /\
  match snd p with
  | ContainerOutput _ | RemoveWarning _ => True
  | _ => False
  end.

(** An event that stays within the working directory of [job]: a clone
    of the job's branch into it, a read of its manifest, a step run in
    it, a container of a step with it as the one bind, at [/app]. *)
Definition confined {W} (env : Env W) (job : Job) (ev : Event) : Prop :=
  match ev with
  | GitClone branch repo path =>
      branch = Branch job /\ repo = ProjectRepo (JobProject job) /\ path = repoPath_of job
  | ReadFile path => path = filepath_Join env (repoPath_of job) "duck-ci.yml"
  | EnterRunStep _ repoPath => repoPath = repoPath_of job
  | ContainerCreate c h =>
      (exists step, c = container_of step) /\ h = mkHostConfig [repoPath_of job ++ ":/app"]
  | _ => True
  end.

(** * Properties *)

(** ** The monad *)

Section MonadFacts.

Variable W : Type.

Lemma bind_done {A B} (m : M W A) (f : A -> M W B) w a :
  out (m w) = Done a ->
  bind m f w =
  mkRes (trace (m w) ++ trace (f a (world (m w))))%list
        (world (f a (world (m w)))) (out (f a (world (m w)))).
Proof. intros H. unfold bind. rewrite H. reflexivity. Qed.

Lemma bind_fatal {A B} (m : M W A) (f : A -> M W B) w e :
  out (m w) = Fatal e ->
  bind m f w = mkRes (trace (m w)) (world (m w)) (Fatal e).
Proof. intros H. unfold bind. rewrite H. reflexivity. Qed.

Lemma bind_mark {B} ev (f : unit -> M W B) w :
  bind (mark ev) f w = mkRes (ev :: trace (f tt w)) (world (f tt w)) (out (f tt w)).
Proof. reflexivity. Qed.

Lemma bind_call {A B} ev (h : W -> W * A) (f : A -> M W B) w :
  bind (call ev h) f w =
  mkRes (ev :: trace (f (snd (h w)) (fst (h w))))
        (world (f (snd (h w)) (fst (h w)))) (out (f (snd (h w)) (fst (h w)))).
Proof. reflexivity. Qed.

Lemma emits_ret {A} P (a : A) : emits P (@ret W A a).
Proof. intros w. constructor. Qed.

Lemma emits_fatal {A} P e : emits P (@log_Fatal W A e).
Proof. intros w. constructor. Qed.

Lemma emits_call {A} (P : Event -> Prop) ev (h : W -> W * A) : P ev -> emits P (call ev h).
Proof. intros H w. simpl. constructor; [exact H | constructor]. Qed.

Lemma emits_mark (P : Event -> Prop) ev : P ev -> emits P (@mark W ev).
Proof. intros H w. simpl. constructor; [exact H | constructor]. Qed.

Lemma emits_bind {A B} P (m : M W A) (f : A -> M W B) :
  emits P m -> (forall a, emits P (f a)) -> emits P (bind m f).
Proof.
  intros Hm Hf w. unfold bind. destruct (out (m w)) as [a|e]; simpl.
  - apply Forall_app. split; [apply Hm | apply Hf].
  - apply Hm.
Qed.

End MonadFacts.

Lemma pick_app {A} (f : Event -> option A) t1 t2 :
  pick f (t1 ++ t2) = (pick f t1 ++ pick f t2)%list.
Proof.
  induction t1 as [|ev t1 IH]; simpl; [reflexivity|].
  destruct (f ev); simpl; rewrite IH; reflexivity.
Qed.

Lemma pick_none {A} (f : Event -> option A) t :
  Forall (fun ev => f ev = None) t -> pick f t = [].
Proof.
  induction 1 as [|ev t H _ IH]; simpl; [reflexivity|]. rewrite H. exact IH.
Qed.

(** ** The container gateway *)

Lemma has_tag_spec images imageName :
  has_tag images imageName = true <->
  exists image, In image images /\ In imageName (RepoTags image).
Proof.
  unfold has_tag. rewrite existsb_exists. split.
  - intros [image [Hin H]]. apply existsb_exists in H. destruct H as [tag [Ht E]].
    apply String.eqb_eq in E. subst tag. exists image. split; assumption.
  - intros [image [Hin Ht]]. exists image. split; [assumption|].
    apply existsb_exists. exists imageName. split; [assumption|apply String.eqb_refl].
Qed.

(** C8. [ensureImage]: when some local image carries a repo-tag equal to
    the requested name, it returns nil after the listing alone, without
    pulling; otherwise it starts a pull and, the pull started, copies the
    whole progress stream to [io.Discard] and closes it before it
    returns what the copy returned; an error of the listing or of the
    pull is returned as it is. *)
Theorem ensureImage_semantics W (env : Env W) (imageName : string) (w : W) :
  let listed := image_list env w in
  let present images := exists image, In image images /\ In imageName (RepoTags image) in
  let pulled := image_pull env imageName (fst listed) in
  let copied := pull_copy env imageName (fst pulled) in
  (forall images, snd listed = Ok images -> present images ->
     ensureImage env imageName w = mkRes [ImageList] (fst listed) (Done None)) /\
  (forall images, snd listed = Ok images -> ~ present images -> snd pulled = None ->
     ensureImage env imageName w =
     mkRes [ImageList; ImagePull imageName; PullCopy imageName; PullClose imageName]
           (fst copied) (Done (snd copied))) /\
  (forall images e, snd listed = Ok images -> ~ present images -> snd pulled = Some e ->
     ensureImage env imageName w =
     mkRes [ImageList; ImagePull imageName] (fst pulled) (Done (Some e))) /\
  (forall e, snd listed = Err e ->
     ensureImage env imageName w = mkRes [ImageList] (fst listed) (Done (Some e))).
Proof.
  intros listed present pulled copied.
  assert (Hno : forall images, ~ present images -> has_tag images imageName = false).
  { intros images H. destruct (has_tag images imageName) eqn:E; [|reflexivity].
    exfalso. apply H. apply has_tag_spec. exact E. }
  repeat split.
  - intros images Hl Hp. apply has_tag_spec in Hp.
    unfold ensureImage, bind, call; simpl. fold listed. rewrite Hl, Hp. reflexivity.
  - intros images Hl Hp Hq. apply Hno in Hp.
    unfold ensureImage, bind, call; simpl. fold listed. rewrite Hl, Hp. simpl.
    fold pulled. rewrite Hq. reflexivity.
  - intros images e Hl Hp Hq. apply Hno in Hp.
    unfold ensureImage, bind, call; simpl. fold listed. rewrite Hl, Hp. simpl.
    fold pulled. rewrite Hq. reflexivity.
  - intros e Hl. unfold ensureImage, bind, call; simpl. fold listed. rewrite Hl. reflexivity.
Qed.

Lemma ensureImage_semantics_witness :
  ensureImage (lab (Ok "steps: []") NoDocument) "alpine" 0 = mkRes [ImageList] 1 (Done None) /\
  ensureImage (lab (Ok "steps: []") NoDocument) "golang:1" 0 =
  mkRes [ImageList; ImagePull "golang:1"; PullCopy "golang:1"; PullClose "golang:1"] 3 (Done None) /\
  ensureImage (lab (Ok "steps: []") NoDocument) EmptyString 0 =
  mkRes [ImageList; ImagePull EmptyString] 2 (Done (Some "invalid reference format")).
Proof.
  pose (images := [mkImage ["busybox:latest"]; mkImage ["alpine"; "alpine:3"]]).
  assert (Habsent : forall name, name <> "busybox:latest" -> name <> "alpine" ->
            name <> "alpine:3" ->
            ~ (exists image, In image images /\ In name (RepoTags image))).
  { intros name H1 H2 H3 [image [Hin Ht]]. simpl in Hin.
    destruct Hin as [<-|[<-|[]]]; simpl in Ht; intuition congruence. }
  split; [|split].
  - apply (proj1 (ensureImage_semantics nat (lab (Ok "steps: []") NoDocument) "alpine" 0) images).
    + reflexivity.
    + exists (mkImage ["alpine"; "alpine:3"]). simpl. auto.
  - apply (proj1 (proj2 (ensureImage_semantics nat (lab (Ok "steps: []") NoDocument) "golang:1" 0)) images).
    + reflexivity.
    + apply Habsent; discriminate.
    + reflexivity.
  - apply (proj1 (proj2 (proj2 (ensureImage_semantics nat (lab (Ok "steps: []") NoDocument) EmptyString 0))) images).
    + reflexivity.
    + apply Habsent; discriminate.
    + reflexivity.
Defined.

(** ** The step executor *)

(** What [runStep] does once the container's output has been streamed. *)
Lemma runStep_streamed W (env : Env W) job step repoPath w containerID w3 :
  step_streamed env job step repoPath w containerID w3 ->
  runStep env job step repoPath w =
  let streamed :=
    (EnterRunStep step repoPath :: trace (ensureImage env (Image step) w)
     ++ trace (createAndStartContainer env step repoPath (after (ensureImage env (Image step)) w))
     ++ trace (streamLogs env job containerID
                 (after (createAndStartContainer env step repoPath)
                    (after (ensureImage env (Image step)) w))))%list in
  let rest :=
    (r <- waitForContainer env containerID ;;
     match snd r with
     | Some e => ret (Some ("failed to wait for container: " ++ e))
     | None =>
         err <- call (ContainerRemove containerID) (container_remove env containerID) ;;
         match err with
         | Some e => PushLog env job (RemoveWarning e)
         | None => ret tt
         end ;;;
         if negb (fst r =? 0)%Z
         then ret (Some ("step failed with status code: " ++ fmt_d (fst r)))
         else ret None
     end) w3 in
  mkRes (streamed ++ trace rest)%list (world rest) (out rest).
Proof.
  intros (H1 & H2 & H3 & ->). unfold returns, after in *.
  unfold runStep. rewrite bind_mark.
  rewrite (bind_done _ _ _ _ _ H1); cbn [trace world out].
  rewrite (bind_done _ _ _ _ _ H2); cbn [trace world out].
  rewrite (bind_done _ _ _ _ _ H3); cbn [trace world out].
  cbv zeta. cbn [app]. rewrite <- !app_assoc. reflexivity.
Qed.

Lemma waitForContainer_eq W (env : Env W) containerID w :
  waitForContainer env containerID w =
  mkRes [ContainerWait containerID] (fst (container_wait env containerID w))
        (Done match snd (container_wait env containerID w) with
              | FromErrCh err => ((-1)%Z, Some err)
              | FromStatusCh StatusCode => (StatusCode, None)
              end).
Proof.
  unfold waitForContainer. rewrite bind_call.
  destruct (snd (container_wait env containerID w)); reflexivity.
Qed.

(** C7. Exit-code translation: once the container of a step has been
    started and its output streamed, and the wait delivers exit code
    [code], [runStep] returns nil when [code] is zero and otherwise an
    error that records [code]; whether the removal of the container
    succeeds plays no part (its warning only has to reach the store). *)
Theorem runStep_exit_code W (env : Env W) job step repoPath w containerID w3 code :
  step_streamed env job step repoPath w containerID w3 ->
  snd (container_wait env containerID w3) = FromStatusCh code ->
  let removed := container_remove env containerID (fst (container_wait env containerID w3)) in
  (forall e, snd removed = Some e ->
     returns (PushLog env job (RemoveWarning e)) (fst removed) tt) ->
  exists r, returns (runStep env job step repoPath) w r /\
    (code = 0%Z -> r = None) /\
    (code <> 0%Z -> r = Some ("step failed with status code: " ++ fmt_d code)).
Proof.
  intros Hs Hw removed Hwarn.
  exists (if negb (code =? 0)%Z
          then Some ("step failed with status code: " ++ fmt_d code) else None).
  split.
  - unfold returns. rewrite (runStep_streamed _ _ _ _ _ _ _ _ Hs). cbv zeta. cbn [out].
    rewrite bind_done with (a := (code, @None error))
      by (rewrite waitForContainer_eq, Hw; reflexivity).
    cbn [out snd fst]. rewrite waitForContainer_eq. cbn [world].
    rewrite bind_call. cbn [out]. fold removed.
    destruct (snd removed) as [e|] eqn:E.
    + rewrite (bind_done _ _ _ _ tt (Hwarn e eq_refl)). cbn [out].
      destruct (code =? 0)%Z; reflexivity.
    + rewrite (bind_done _ (ret tt) _ _ tt eq_refl). cbn [out].
      destruct (code =? 0)%Z; reflexivity.
  - split.
    + intros ->. reflexivity.
    + intros H. apply Z.eqb_neq in H. rewrite H. reflexivity.
Qed.

Lemma runStep_exit_code_witness :
  exists r,
    returns (runStep (lab (Ok "steps: []") NoDocument) lab_job (mkStep "test" "alpine" "exit 3") "/src") 0%nat r /\
    (3%Z = 0%Z -> r = None) /\
    (3%Z <> 0%Z -> r = Some ("step failed with status code: " ++ fmt_d 3)).
Proof.
  apply (runStep_exit_code nat (lab (Ok "steps: []") NoDocument) lab_job
           (mkStep "test" "alpine" "exit 3") "/src" 0%nat "exit 3" 5%nat 3%Z).
  - unfold step_streamed, returns, after. repeat split; reflexivity.
  - reflexivity.
  - intros e H. discriminate H.
Defined.

(** C4. Removal is not attempted however a step ends.  The executor on
    three containers that all start: one whose log stream breaks, one
    whose wait fails, one that exits with 3.  Only the last is removed;
    for the first two [runStep] returns before the [ContainerRemove]
    call, and the started container stays. *)
Theorem runStep_removal_skipped_on_stream_and_wait_failure :
  let run cmd :=
    runStep (lab (Ok "steps: []") NoDocument) lab_job (mkStep "s" "alpine" cmd) "/src" 0%nat in
  (out (run "flood") = Done (Some "failed to stream logs: bufio.Scanner: token too long") /\
   container_starts (trace (run "flood")) = ["flood"] /\
   container_removes (trace (run "flood")) = []) /\
  (out (run "hang") = Done (Some "failed to wait for container: context canceled") /\
   container_starts (trace (run "hang")) = ["hang"] /\
   container_removes (trace (run "hang")) = []) /\
  (out (run "exit 3") = Done (Some "step failed with status code: 3") /\
   container_starts (trace (run "exit 3")) = ["exit 3"] /\
   container_removes (trace (run "exit 3")) = ["exit 3"]).
Proof. cbv zeta. repeat split; reflexivity. Qed.

(** ** The working directory *)

Lemma append_assoc (a b c : string) : (a ++ b) ++ c = a ++ (b ++ c).
Proof. induction a as [|x a IH]; simpl; [reflexivity | rewrite IH; reflexivity]. Qed.

Lemma append_inj_l (a x y : string) : a ++ x = a ++ y -> x = y.
Proof.
  induction a as [|c a IH]; simpl; intros H; [exact H|].
  injection H as H. exact (IH H).
Qed.

Lemma all_digits_uint (d : Decimal.uint) : all_digits (NilEmpty.string_of_uint d) = true.
Proof. induction d; simpl; try reflexivity; exact IHd. Qed.

Lemma all_digits_fmt_u (n : N) : all_digits (fmt_u n) = true.
Proof. apply all_digits_uint. Qed.

Lemma fmt_u_inj (a b : N) : fmt_u a = fmt_u b -> a = b.
Proof.
  unfold fmt_u. intros H. apply DecimalN.Unsigned.to_uint_inj.
  assert (E : Some (N.to_uint a) = Some (N.to_uint b)).
  { rewrite <- (NilEmpty.usu (N.to_uint a)), <- (NilEmpty.usu (N.to_uint b)), H.
    reflexivity. }
  injection E as E. exact E.
Qed.

Lemma dash_not_digits (y d : string) : all_digits (y ++ String "-" d) = false.
Proof.
  induction y as [|c y IH]; cbn [append all_digits]; [reflexivity|].
  rewrite IH. apply andb_false_r.
Qed.

(** A string that ends in a dash followed by digits determines them. *)
Lemma digits_after_dash (x y d1 d2 : string) :
  all_digits d1 = true -> all_digits d2 = true ->
  x ++ String "-" d1 = y ++ String "-" d2 -> d1 = d2.
Proof.
  intros H1 H2. revert y. induction x as [|c x IH]; intros [|c' y] H; cbn [append] in H.
  - injection H as H. exact H.
  - injection H as _ H. rewrite H, dash_not_digits in H1. discriminate.
  - injection H as _ H. rewrite <- H, dash_not_digits in H2. discriminate.
  - injection H as _ H. exact (IH _ H).
Qed.

Lemma repoPath_of_inj_Id (j1 j2 : Job) : repoPath_of j1 = repoPath_of j2 -> Id j1 = Id j2.
Proof.
  unfold repoPath_of. intros H. apply append_inj_l in H.
  change ("-task-" ++ fmt_u (Id j1)) with ("-task" ++ String "-" (fmt_u (Id j1))) in H.
  change ("-task-" ++ fmt_u (Id j2)) with ("-task" ++ String "-" (fmt_u (Id j2))) in H.
  rewrite <- !append_assoc in H.
  apply fmt_u_inj. eapply digits_after_dash; [| | exact H]; apply all_digits_fmt_u.
Qed.

(** C9. The directory a job is cloned into is [/tmp/duck-ci/] followed by
    the project name, [-task-] and the job id: it is the path handed to
    [git clone] and the one [cloneRepository] returns, and two jobs with
    different ids get different paths (whatever their projects). *)
Theorem cloneRepository_run_scoped_directory W (env : Env W) (j1 j2 : Job) :
  Id j1 <> Id j2 ->
  repoPath_of j1 <> repoPath_of j2 /\
  (forall job w,
     hd_error (trace (cloneRepository env job w)) =
     Some (GitClone (Branch job) (ProjectRepo (JobProject job)) (repoPath_of job))) /\
  (forall job w path, returns (cloneRepository env job) w (Ok path) -> path = repoPath_of job).
Proof.
  intros Hid. split; [|split].
  - intros H. apply Hid. apply repoPath_of_inj_Id. exact H.
  - intros job w. unfold cloneRepository. rewrite bind_call. reflexivity.
  - intros job w path. unfold returns, cloneRepository. rewrite bind_call. cbn [out].
    destruct (snd (snd (git_clone env _ _ _ w))) as [e|].
    + discriminate.
    + unfold bind. destruct (out (PushLog env job _ _)); cbn [out].
      * intros H. injection H as H. symmetry. exact H.
      * discriminate.
Qed.

Lemma cloneRepository_run_scoped_directory_witness :
  repoPath_of lab_job <> repoPath_of (mkJob 8 "main" "-1" (JobProject lab_job)) /\
  repoPath_of lab_job = "/tmp/duck-ci/demo-task-7".
Proof.
  split.
  - apply (cloneRepository_run_scoped_directory nat (lab (Ok "steps: []") NoDocument)
             lab_job (mkJob 8 "main" "-1" (JobProject lab_job))).
    simpl. discriminate.
  - reflexivity.
Defined.

(** ** The manifest *)

Lemma dec_bind_ret_l {A B} (a : A) (f : A -> dec B) : dec_bind (dec_ret a) f = f a.
Proof. unfold dec_bind, dec_ret. destruct (f a) as [[b errs]|msg]; reflexivity. Qed.

Lemma dec_bind_assoc {A B C} (m : dec A) (f : A -> dec B) (g : B -> dec C) :
  dec_bind (dec_bind m f) g = dec_bind m (fun a => dec_bind (f a) g).
Proof.
  unfold dec_bind. destruct m as [[a errs]|msg]; [|reflexivity].
  destruct (f a) as [[b errs']|msg]; [|reflexivity].
  destruct (g b) as [[c errs'']|msg]; [|reflexivity].
  rewrite app_assoc. reflexivity.
Qed.

Lemma dec_bind_ext {A B} (m : dec A) (f g : A -> dec B) :
  (forall a, f a = g a) -> dec_bind m f = dec_bind m g.
Proof. intros H. unfold dec_bind. destruct m as [[a errs]|msg]; [rewrite H|]; reflexivity. Qed.

Lemma failed_bind_l {A B} (m : dec A) (f : A -> dec B) : failed m -> failed (dec_bind m f).
Proof.
  unfold failed, dec_bind. destruct m as [[a errs]|msg]; [|trivial].
  intros H. destruct (f a) as [[b errs']|msg]; [|trivial].
  intros E. apply app_eq_nil in E. apply H, E.
Qed.

Lemma failed_bind_r {A B} (m : dec A) (f : A -> dec B) :
  (forall a, failed (f a)) -> failed (dec_bind m f).
Proof.
  unfold failed, dec_bind. destruct m as [[a errs]|msg]; [|trivial].
  intros H. specialize (H a). destruct (f a) as [[b errs']|msg]; [|trivial].
  intros E. apply app_eq_nil in E. apply H, E.
Qed.

Section DecoderFacts.

Variable b64 : string -> option string.

Section StructFacts.

Variable T : Type.
Variable field : string -> option (Node -> Lines -> T -> dec T).
Variable merge_value : Node -> Lines -> T -> dec T.

Lemma mappingStruct_app l1 l2 :
  forall ps out,
  mappingStruct b64 T field merge_value (l1 ++ l2) ps out =
  dec_bind (mappingStruct b64 T field merge_value l1 ps out)
           (mappingStruct b64 T field merge_value l2 (lines_after (length l1) ps)).
Proof.
  induction l1 as [|[ni nv] l1 IH]; intros ps out; cbn [app mappingStruct length lines_after].
  - rewrite dec_bind_ret_l. reflexivity.
  - destruct (isMerge ni); rewrite dec_bind_assoc; apply dec_bind_ext; intros a; apply IH.
Qed.

(** The entries before the one left out are read with the same lines,
    and the entries after it with theirs. *)
Lemma mappingStruct_lines_without l1 :
  forall ps out,
  mappingStruct b64 T field merge_value l1 (lines_without (length l1) ps) out =
  mappingStruct b64 T field merge_value l1 ps out.
Proof.
  induction l1 as [|[ni nv] l1 IH]; intros ps out; cbn [mappingStruct length lines_without].
  - reflexivity.
  - cbn [tl first_Lines hd]. destruct (isMerge ni); apply dec_bind_ext; intros a; apply IH.
Qed.

Lemma lines_after_without i :
  forall ps, lines_after i (lines_without i ps) = tl (tl (lines_after i ps)).
Proof. induction i as [|i IH]; intros ps; cbn [lines_after lines_without tl]; auto. Qed.

(** A key that is neither a field name nor a merge key changes nothing. *)
Lemma mappingStruct_unknown_key l1 l2 tag key name value ps out :
  isMerge (ScalarNode tag key) = false ->
  scalar_text b64 tag key = Some name -> field name = None ->
  mappingStruct b64 T field merge_value (l1 ++ (ScalarNode tag key, value) :: l2) ps out =
  mappingStruct b64 T field merge_value (l1 ++ l2) (lines_without (length l1) ps) out.
Proof.
  intros Hm Hn Hk. rewrite !mappingStruct_app, mappingStruct_lines_without.
  apply dec_bind_ext. intros a.
  cbn [mappingStruct]. rewrite Hm. unfold struct_entry, unmarshal_string.
  rewrite Hn, dec_bind_ret_l. cbn [fst snd]. rewrite Hk, dec_bind_ret_l.
  rewrite lines_after_without. reflexivity.
Qed.

(** An entry whose decode fails makes the whole mapping fail. *)
Lemma mappingStruct_failed l1 l2 ni nv :
  isMerge ni = false ->
  (forall pi pv out, failed (struct_entry b64 T field ni nv pi pv out)) ->
  forall ps out, failed (mappingStruct b64 T field merge_value (l1 ++ (ni, nv) :: l2) ps out).
Proof.
  intros Hm H ps out. rewrite mappingStruct_app. apply failed_bind_r. intros a.
  cbn [mappingStruct]. rewrite Hm. apply failed_bind_l. apply H.
Qed.

(** Two entries that decode alike can stand for each other. *)
Lemma mappingStruct_same_entry l1 l2 ni nv nv' :
  isMerge ni = false ->
  (forall pi pv out,
     struct_entry b64 T field ni nv pi pv out = struct_entry b64 T field ni nv' pi pv out) ->
  forall ps out,
  mappingStruct b64 T field merge_value (l1 ++ (ni, nv) :: l2) ps out =
  mappingStruct b64 T field merge_value (l1 ++ (ni, nv') :: l2) ps out.
Proof.
  intros Hm H ps out. rewrite !mappingStruct_app. apply dec_bind_ext. intros a.
  cbn [mappingStruct]. rewrite Hm, H. reflexivity.
Qed.

End StructFacts.

Lemma unmarshal_Config_mapping children p out :
  unmarshal_Config b64 (MappingNode children) p out =
  dec_bind (mappingStruct b64 Config (Config_field b64)
              (merge Config (unmarshal_Config b64)) children (lines_of p) out)
           (fun out => dec_ret (out, true)).
Proof. reflexivity. Qed.

Lemma Unmarshal_failed root p out :
  failed (unmarshal_Config b64 root p out) ->
  exists e, snd (Unmarshal b64 (Document root) p out) = Some e.
Proof.
  unfold Unmarshal, failed. destruct (unmarshal_Config b64 root p out) as [[r errs]|msg].
  - destruct errs as [|e errs]; [intros H; contradiction H; reflexivity|].
    intros _. eexists. reflexivity.
  - intros _. eexists. reflexivity.
Qed.

Lemma steps_entry_failed v pi pv out :
  neither_list_nor_null v ->
  failed (struct_entry b64 Config (Config_field b64) (str "steps") v pi pv out).
Proof.
  destruct v as [tag value|children|children]; cbn [neither_list_nor_null]; intros H.
  - unfold struct_entry. cbn. unfold scalar_into.
    destruct (scalar_text b64 tag value); [|exact I].
    rewrite H. cbn. discriminate.
  - unfold struct_entry. cbn. discriminate.
  - contradiction.
Qed.

(** A null value of [steps] decodes as an empty list does. *)
Lemma steps_entry_null tag value pi pv out :
  resolved_nil tag = true ->
  struct_entry b64 Config (Config_field b64) (str "steps") (ScalarNode tag value) pi pv out =
  struct_entry b64 Config (Config_field b64) (str "steps") (SequenceNode []) pi pv out.
Proof.
  intros H. unfold resolved_nil in H. apply String.eqb_eq in H. subst tag. reflexivity.
Qed.

Lemma unmarshal_Step_object o p :
  unmarshal_Step b64 (object_node o) p zero_Step = Ok ((step_of_object o, true), []).
Proof. destruct o as [[n|] [i|] [r|]]; reflexivity. Qed.

Lemma sequence_Steps_objects objs :
  forall ps, sequence_Steps b64 (map object_node objs) ps = Ok (map step_of_object objs, []).
Proof.
  induction objs as [|o objs IH]; intros ps; cbn [map sequence_Steps]; [reflexivity|].
  rewrite unmarshal_Step_object, IH. reflexivity.
Qed.

Lemma Unmarshal_objects objs p :
  Unmarshal b64 (Document (MappingNode [(str "steps", SequenceNode (map object_node objs))])) p
    zero_Config = (mkConfig (map step_of_object objs), None).
Proof.
  unfold Unmarshal. rewrite unmarshal_Config_mapping. cbn [mappingStruct].
  change (isMerge (str "steps")) with false. cbv iota.
  unfold struct_entry. cbn [unmarshal_string str].
  change (scalar_text b64 "!!str" "steps") with (Some "steps").
  cbv iota. rewrite dec_bind_ret_l. cbn [fst snd].
  change (Config_field b64 "steps") with
    (Some (fun nv pv out => dec_bind (unmarshal_Steps b64 nv pv (Steps out))
                              (fun r => dec_ret (mkConfig (fst r))))).
  cbv iota beta. cbn [unmarshal_Steps]. rewrite sequence_Steps_objects. reflexivity.
Qed.

Lemma Unmarshal_manifest_of steps p :
  Unmarshal b64 (manifest_of steps) p zero_Config = (mkConfig steps, None).
Proof.
  unfold manifest_of.
  replace (map step_node steps) with
    (map object_node
       (map (fun s => mkStepObject (Some (Name s)) (Some (Image s)) (Some (Runs s))) steps)).
  - rewrite Unmarshal_objects. rewrite map_map. f_equal. f_equal.
    rewrite <- (map_id steps) at 2. apply map_ext. intros s. destruct s; reflexivity.
  - rewrite map_map. apply map_ext. intros s. destruct s; reflexivity.
Qed.

End DecoderFacts.

Lemma loadConfig_read W (env : Env W) repoPath w data :
  snd (read_file env (filepath_Join env repoPath "duck-ci.yml") w) = Ok data ->
  loadConfig env repoPath w =
  mkRes [ReadFile (filepath_Join env repoPath "duck-ci.yml")]
        (fst (read_file env (filepath_Join env repoPath "duck-ci.yml") w))
        (Done match Unmarshal (base64_DecodeString env) (yaml_parse env data)
                      (yaml_lines env data) zero_Config with
              | (_, Some err) => Err ("failed to parse config file: " ++ err)
              | (config, None) => Ok config
              end).
Proof.
  intros H. unfold loadConfig. cbv zeta. rewrite bind_call. rewrite H.
  destruct (Unmarshal _ _ _ _) as [config [err|]]; reflexivity.
Qed.

(** C6 (amended). [loadConfig] on the manifest file of a source tree:
    the manifest [steps: [{name: build, image: alpine, runs: echo hi}]]
    loads as exactly that one step; a manifest in which the value of
    [steps] is a mapping or a non-null scalar makes [loadConfig] return
    an error, and it does return; a null value of [steps] loads as an
    empty list does, as a pipeline of no steps when it is the only
    entry; a scalar key of the top-level mapping that is no merge key
    and whose name (for a [!!binary] key, the text it decodes to) is not
    [steps] is ignored: the manifest loads as it would without that
    entry; a manifest file that cannot be read gives the read error. *)
Theorem loadConfig_manifest W (env : Env W) repoPath w :
  let file := snd (read_file env (filepath_Join env repoPath "duck-ci.yml") w) in
  let loaded doc p :=
    match Unmarshal (base64_DecodeString env) doc p zero_Config with
    | (_, Some err) => Err ("failed to parse config file: " ++ err)
    | (config, None) => Ok config
    end in
  (forall data, file = Ok data ->
     yaml_parse env data = manifest_of [mkStep "build" "alpine" "echo hi"] ->
     returns (loadConfig env repoPath) w (Ok (mkConfig [mkStep "build" "alpine" "echo hi"]))) /\
  (forall data l1 l2 v, file = Ok data ->
     yaml_parse env data = Document (MappingNode (l1 ++ (str "steps", v) :: l2)) ->
     neither_list_nor_null v ->
     exists e, returns (loadConfig env repoPath) w (Err e)) /\
  (forall data l1 l2 tag value, file = Ok data ->
     yaml_parse env data =
       Document (MappingNode (l1 ++ (str "steps", ScalarNode tag value) :: l2)) ->
     resolved_nil tag = true ->
     returns (loadConfig env repoPath) w
       (loaded (Document (MappingNode (l1 ++ (str "steps", SequenceNode []) :: l2)))
               (yaml_lines env data)) /\
     (l1 = [] -> l2 = [] -> returns (loadConfig env repoPath) w (Ok (mkConfig [])))) /\
  (forall data l1 l2 tag key name value, file = Ok data ->
     yaml_parse env data = Document (MappingNode (l1 ++ (ScalarNode tag key, value) :: l2)) ->
     isMerge (ScalarNode tag key) = false ->
     scalar_text (base64_DecodeString env) tag key = Some name -> name <> "steps" ->
     returns (loadConfig env repoPath) w
       (loaded (Document (MappingNode (l1 ++ l2)))
               (without_entry (length l1) (yaml_lines env data)))) /\
  (forall e, file = Err e ->
     returns (loadConfig env repoPath) w (Err ("failed to read config file: " ++ e))).
Proof.
  intros file loaded. split; [|split; [|split; [|split]]].
  - intros data Hf Hp. unfold returns. rewrite (loadConfig_read _ _ _ _ _ Hf), Hp.
    rewrite Unmarshal_manifest_of. reflexivity.
  - intros data l1 l2 v Hf Hp Hv. unfold returns. rewrite (loadConfig_read _ _ _ _ _ Hf), Hp.
    destruct (Unmarshal_failed (base64_DecodeString env)
                (MappingNode (l1 ++ (str "steps", v) :: l2)) (yaml_lines env data) zero_Config)
      as [e He].
    + rewrite unmarshal_Config_mapping. apply failed_bind_l.
      apply mappingStruct_failed; [reflexivity|].
      intros pi pv out. apply steps_entry_failed. exact Hv.
    + destruct (Unmarshal _ _ _ zero_Config) as [config err]. cbn [snd] in He. subst err.
      eexists. reflexivity.
  - intros data l1 l2 tag value Hf Hp Hn.
    assert (E : Unmarshal (base64_DecodeString env)
                  (Document (MappingNode (l1 ++ (str "steps", ScalarNode tag value) :: l2)))
                  (yaml_lines env data) zero_Config =
                Unmarshal (base64_DecodeString env)
                  (Document (MappingNode (l1 ++ (str "steps", SequenceNode []) :: l2)))
                  (yaml_lines env data) zero_Config).
    { unfold Unmarshal. rewrite !unmarshal_Config_mapping.
      rewrite (mappingStruct_same_entry (base64_DecodeString env) Config
                 (Config_field (base64_DecodeString env)) _ l1 l2 (str "steps")
                 (ScalarNode tag value) (SequenceNode [])); [reflexivity | reflexivity |].
      intros pi pv out. apply steps_entry_null. exact Hn. }
    unfold returns. rewrite (loadConfig_read _ _ _ _ _ Hf), Hp, E. cbn [out].
    split; [reflexivity|]. intros -> ->. reflexivity.
  - intros data l1 l2 tag key name value Hf Hp Hm Hn Hk. unfold returns.
    rewrite (loadConfig_read _ _ _ _ _ Hf), Hp. cbn [out]. f_equal. unfold loaded.
    replace (Unmarshal (base64_DecodeString env)
               (Document (MappingNode (l1 ++ (ScalarNode tag key, value) :: l2)))
               (yaml_lines env data) zero_Config)
      with (Unmarshal (base64_DecodeString env) (Document (MappingNode (l1 ++ l2)))
              (without_entry (length l1) (yaml_lines env data)) zero_Config); [reflexivity|].
    unfold Unmarshal. rewrite !unmarshal_Config_mapping. cbn [without_entry lines_of].
    rewrite (mappingStruct_unknown_key (base64_DecodeString env) Config
               (Config_field (base64_DecodeString env)) _ l1 l2 tag key name value); auto.
    unfold Config_field. apply String.eqb_neq in Hk. rewrite Hk. reflexivity.
  - intros e Hf. unfold returns, loadConfig. cbv zeta. rewrite bind_call. fold file.
    rewrite Hf. reflexivity.
Qed.

Lemma loadConfig_manifest_witness :
  returns (loadConfig (lab (Ok "steps: [...]") (manifest_of [mkStep "build" "alpine" "echo hi"])) "/src")
    0%nat (Ok (mkConfig [mkStep "build" "alpine" "echo hi"])) /\
  (exists e,
     returns (loadConfig (lab (Ok "steps: oops")
                (Document (MappingNode [(str "steps", str "oops")]))) "/src") 0%nat (Err e)) /\
  returns (loadConfig (lab (Ok "steps:")
             (Document (MappingNode [(str "steps", ScalarNode "!!null" EmptyString)])))
             "/src") 0%nat (Ok (mkConfig [])) /\
  returns (loadConfig (lab (Ok "{version: 2, steps: []}")
             (Document (MappingNode [(str "version", str "2"); (str "steps", SequenceNode [])])))
             "/src") 0%nat (Ok (mkConfig [])) /\
  returns (loadConfig (lab (Ok "{steps: [], !!binary dmVyc2lvbg==: 2}")
             (Document (MappingNode [(str "steps", SequenceNode []);
                                     (ScalarNode "!!binary" "dmVyc2lvbg==", str "2")])))
             "/src") 0%nat (Ok (mkConfig [])) /\
  returns (loadConfig (lab (Err "open /src/duck-ci.yml: no such file or directory") NoDocument) "/src")
    0%nat (Err "failed to read config file: open /src/duck-ci.yml: no such file or directory").
Proof.
  split; [|split; [|split; [|split; [|split]]]].
  - apply (proj1 (loadConfig_manifest nat
             (lab (Ok "steps: [...]") (manifest_of [mkStep "build" "alpine" "echo hi"])) "/src" 0%nat)
             "steps: [...]"); reflexivity.
  - apply (proj1 (proj2 (loadConfig_manifest nat
             (lab (Ok "steps: oops") (Document (MappingNode [(str "steps", str "oops")])))
             "/src" 0%nat)) "steps: oops" [] [] (str "oops")); reflexivity.
  - apply (proj2 (proj1 (proj2 (proj2 (loadConfig_manifest nat
             (lab (Ok "steps:")
                (Document (MappingNode [(str "steps", ScalarNode "!!null" EmptyString)])))
             "/src" 0%nat))) "steps:" [] [] "!!null" EmptyString eq_refl eq_refl eq_refl));
      reflexivity.
  - apply (proj1 (proj2 (proj2 (proj2 (loadConfig_manifest nat
             (lab (Ok "{version: 2, steps: []}")
                (Document (MappingNode [(str "version", str "2"); (str "steps", SequenceNode [])])))
             "/src" 0%nat)))) "{version: 2, steps: []}" [] [(str "steps", SequenceNode [])]
             "!!str" "version" "version" (str "2")); try reflexivity. discriminate.
  - apply (proj1 (proj2 (proj2 (proj2 (loadConfig_manifest nat
             (lab (Ok "{steps: [], !!binary dmVyc2lvbg==: 2}")
                (Document (MappingNode [(str "steps", SequenceNode []);
                                        (ScalarNode "!!binary" "dmVyc2lvbg==", str "2")])))
             "/src" 0%nat)))) "{steps: [], !!binary dmVyc2lvbg==: 2}"
             [(str "steps", SequenceNode [])] []
             "!!binary" "dmVyc2lvbg==" "version" (str "2")); try reflexivity. discriminate.
  - apply (proj2 (proj2 (proj2 (proj2 (loadConfig_manifest nat
             (lab (Err "open /src/duck-ci.yml: no such file or directory") NoDocument)
             "/src" 0%nat))))). reflexivity.
Defined.

(** C6, as stated, fails on a null value: [steps: ~] is not a list, and
    the manifest loads, without error, as a pipeline of no steps.  (And
    a top-level key that is not a scalar, as in [{[a]: 1, steps: []}],
    is not ignored: it is a type error.) *)
Lemma loadConfig_null_steps_is_no_error :
  let doc := Document (MappingNode [(str "steps", ScalarNode "!!null" "~")]) in
  let odd := Document (MappingNode [(SequenceNode [str "a"], str "1");
                                    (str "steps", SequenceNode [])]) in
  (forall items, ScalarNode "!!null" "~" <> SequenceNode items) /\
  returns (loadConfig (lab (Ok "steps: ~") doc) "/src") 0%nat (Ok (mkConfig [])) /\
  ~ (exists e, returns (loadConfig (lab (Ok "steps: ~") doc) "/src") 0%nat (Err e)) /\
  returns (loadConfig (lab (Ok "{[a]: 1, steps: []}") odd) "/src") 0%nat
    (Err ("failed to parse config file: yaml: unmarshal errors:"
          ++ String "010" "  line 1: cannot unmarshal !!seq into string")).
Proof.
  cbv zeta. split; [|split; [|split]].
  - intros items H. discriminate H.
  - reflexivity.
  - intros [e H]. discriminate H.
  - reflexivity.
Qed.

(** ** What the parts of a run can record *)

Create HintDb emits.

#[local] Hint Resolve emits_ret emits_fatal : emits.
#[local] Hint Extern 1 (quiet _) => reflexivity : emits.
#[local] Hint Extern 1 (plain _) => (repeat split; reflexivity) : emits.
#[local] Hint Extern 1 (starting_of _ = None) => reflexivity : emits.

Ltac emits_step :=
  match goal with
  | |- emits _ (bind _ _) => apply emits_bind; [|intros ?]
  | |- emits _ (call _ _) => apply emits_call
  | |- emits _ (mark _) => apply emits_mark
  | |- emits _ (match ?x with _ => _ end) => destruct x
  | |- emits _ (if ?x then _ else _) => destruct x
  end.

Ltac emits_all := repeat first [solve [auto with emits] | emits_step].

Section Alphabet.

Variable W : Type.
Variable env : Env W.
Variable job : Job.

Lemma PushLog_eq l w :
  PushLog env job l w =
  match snd (db_insert_log env (Id job) (render l) w) with
  | None => mkRes [DbInsertLog (Id job) l; Println (render l)]
                  (fst (db_insert_log env (Id job) (render l) w)) (Done tt)
  | Some e => mkRes [DbInsertLog (Id job) l]
                    (fst (db_insert_log env (Id job) (render l) w)) (Fatal e)
  end.
Proof.
  unfold PushLog, inertLog, bind, call; cbn [out world trace].
  destruct (snd (db_insert_log env (Id job) (render l) w)); reflexivity.
Qed.

Lemma PushLog_trace l w :
  returns (PushLog env job l) w tt ->
  trace (PushLog env job l w) = [DbInsertLog (Id job) l; Println (render l)].
Proof.
  unfold returns. rewrite PushLog_eq.
  destruct (snd (db_insert_log env (Id job) (render l) w)); [discriminate|reflexivity].
Qed.

Lemma updateJobStatus_eq status w :
  updateJobStatus env job status w =
  mkRes [DbUpdateStatus (Id job) status] (fst (db_update_status env (Id job) status w))
        match snd (db_update_status env (Id job) status w) with
        | None => Done tt
        | Some e => Fatal e
        end.
Proof.
  unfold updateJobStatus, bind, call; cbn [out world trace].
  destruct (snd (db_update_status env (Id job) status w)); reflexivity.
Qed.

Lemma PushLog_quiet l : emits quiet (PushLog env job l).
Proof. unfold PushLog, inertLog. emits_all. Qed.

Lemma PushLog_plain l : starting_of l = None -> emits plain (PushLog env job l).
Proof.
  intros H. unfold PushLog, inertLog. emits_all.
  repeat split; try reflexivity. exact H.
Qed.

Lemma updateJobStatus_plain status : emits plain (updateJobStatus env job status).
Proof. unfold updateJobStatus. emits_all. Qed.

#[local] Hint Resolve PushLog_quiet PushLog_plain updateJobStatus_plain : emits.

Lemma push_lines_quiet lines : emits quiet (push_lines env job lines).
Proof. induction lines; cbn [push_lines]; emits_all. Qed.

Lemma push_lines_plain lines : emits plain (push_lines env job lines).
Proof. induction lines; cbn [push_lines]; emits_all. Qed.

#[local] Hint Resolve push_lines_quiet push_lines_plain : emits.

Lemma ensureImage_quiet image : emits quiet (ensureImage env image).
Proof. unfold ensureImage. emits_all. Qed.

Lemma ensureImage_plain image : emits plain (ensureImage env image).
Proof. unfold ensureImage. emits_all. Qed.

Lemma createAndStartContainer_quiet step repoPath :
  emits quiet (createAndStartContainer env step repoPath).
Proof. unfold createAndStartContainer. emits_all. Qed.

Lemma streamLogs_quiet id : emits quiet (streamLogs env job id).
Proof. unfold streamLogs. emits_all. Qed.

Lemma streamLogs_plain id : emits plain (streamLogs env job id).
Proof. unfold streamLogs. emits_all. Qed.

Lemma waitForContainer_quiet id : emits quiet (waitForContainer env id).
Proof. unfold waitForContainer. emits_all. Qed.

Lemma waitForContainer_plain id : emits plain (waitForContainer env id).
Proof. unfold waitForContainer. emits_all. Qed.

#[local] Hint Resolve ensureImage_quiet ensureImage_plain createAndStartContainer_quiet
  streamLogs_quiet streamLogs_plain waitForContainer_quiet waitForContainer_plain : emits.

Lemma runStep_quiet step repoPath : emits quiet (runStep env job step repoPath).
Proof. unfold runStep. emits_all. Qed.

Lemma cloneRepository_quiet : emits quiet (cloneRepository env job).
Proof. unfold cloneRepository. emits_all. Qed.

Lemma cloneRepository_plain : emits plain (cloneRepository env job).
Proof. unfold cloneRepository. emits_all. Qed.

Lemma loadConfig_quiet repoPath : emits quiet (loadConfig env repoPath).
Proof.
  unfold loadConfig. cbv zeta. emits_all.
Qed.

Lemma loadConfig_plain repoPath : emits plain (loadConfig env repoPath).
Proof.
  unfold loadConfig. cbv zeta. emits_all.
Qed.

End Alphabet.

Ltac emits_goal :=
  match goal with
  | |- Forall ?P (trace (?m ?w)) => revert w; change (emits P m)
  end.

Section StepTrace.

Variable W : Type.
Variable env : Env W.
Variable job : Job.

#[local] Hint Resolve PushLog_quiet PushLog_plain updateJobStatus_plain
  push_lines_quiet push_lines_plain ensureImage_quiet ensureImage_plain
  createAndStartContainer_quiet streamLogs_quiet streamLogs_plain
  waitForContainer_quiet waitForContainer_plain : emits.

Lemma plain_picks t :
  Forall plain t ->
  starting_steps t = [] /\ run_step_calls t = [] /\ container_creates t = [].
Proof.
  intros H. repeat split; apply pick_none; eapply Forall_impl; try exact H;
    intros ev (Ha & Hc & Hk); assumption.
Qed.

(** The executor's record: its entry, then the image events, then, if it
    got that far, the creation of the step's container and what follows. *)
Lemma runStep_trace step repoPath w :
  exists t1 t2,
    trace (runStep env job step repoPath w) = (EnterRunStep step repoPath :: t1 ++ t2)%list /\
    Forall plain t1 /\
    (t2 = [] \/
     exists t3, t2 = ContainerCreate (container_of step) (mkHostConfig [repoPath ++ ":/app"]) :: t3
                /\ Forall plain t3).
Proof.
  unfold runStep. rewrite bind_mark. cbn [trace].
  exists (trace (ensureImage env (Image step) w)).
  assert (He : Forall plain (trace (ensureImage env (Image step) w)))
    by apply ensureImage_plain.
  destruct (out (ensureImage env (Image step) w)) as [[e|]|e] eqn:E.
  - exists []. rewrite (bind_done _ _ _ _ _ E). cbn [trace]. auto.
  - rewrite (bind_done _ _ _ _ _ E). cbn [trace].
    eexists. split; [reflexivity|]. split; [exact He|]. right.
    unfold createAndStartContainer. cbv zeta. unfold bind at 1. rewrite bind_call.
    cbn [out trace world]. fold (container_of step).
    set (w1 := world (ensureImage env (Image step) w)).
    set (made := container_create env (container_of step) (mkHostConfig [repoPath ++ ":/app"]) w1).
    destruct (snd made) as [ID|e].
    + rewrite bind_call. cbn [out trace world].
      destruct (snd (container_start env ID (fst made))) as [e|]; cbn [out trace world app].
      * eexists. split; [reflexivity|]. repeat constructor.
      * eexists. split; [reflexivity|]. constructor; [repeat split; reflexivity|].
        apply Forall_app; split; [constructor|].
        match goal with |- Forall _ (trace (?m ?x)) => generalize x; intros w2 end.
        emits_goal. emits_all.
    + cbn [out trace world app]. eexists. split; [reflexivity|]. constructor.
  - exists []. rewrite (bind_fatal _ _ _ _ _ E). cbn [trace]. rewrite app_nil_r. auto.
Qed.

Lemma runStep_picks step repoPath w :
  starting_steps (trace (runStep env job step repoPath w)) = [] /\
  run_step_calls (trace (runStep env job step repoPath w)) = [step] /\
  among (container_creates (trace (runStep env job step repoPath w))) [container_of step].
Proof.
  destruct (runStep_trace step repoPath w) as (t1 & t2 & -> & H1 & H2).
  destruct (plain_picks _ H1) as (A1 & C1 & K1).
  unfold starting_steps, run_step_calls, container_creates in *.
  cbn [pick announce_of call_of create_of]. rewrite !pick_app, A1, C1, K1. cbn [app].
  destruct H2 as [-> | (t3 & -> & H3)].
  - repeat split; try reflexivity. apply among_drop, among_done.
  - destruct (plain_picks _ H3) as (A3 & C3 & K3).
    unfold starting_steps, run_step_calls, container_creates in *.
    cbn [pick announce_of call_of create_of]. rewrite A3, C3, K3.
    repeat split; try reflexivity. apply among_take, among_done.
Qed.

End StepTrace.

(** C5 (amended).  No field of a step is validated.  When every element
    of [steps] is an object giving some of [name], [image] and [runs] as
    strings, the manifest loads, and each object yields a step whose
    missing fields are empty strings; and the loop hands every step it
    reaches to the Step Executor, whatever its fields. *)
Theorem loadConfig_missing_fields_load_empty W (env : Env W) repoPath w data objs :
  snd (read_file env (filepath_Join env repoPath "duck-ci.yml") w) = Ok data ->
  yaml_parse env data =
    Document (MappingNode [(str "steps", SequenceNode (map object_node objs))]) ->
  returns (loadConfig env repoPath) w (Ok (mkConfig (map step_of_object objs))) /\
  (forall job i step rest w',
     returns (PushLog env job (StartingStep (i + 1) (Name step))) w' tt ->
     exists t,
       run_step_calls (trace (run_steps env job repoPath i (step :: rest) w')) = step :: t).
Proof.
  intros Hf Hp. split.
  - unfold returns. rewrite (loadConfig_read _ _ _ _ _ Hf), Hp.
    rewrite Unmarshal_objects. reflexivity.
  - intros job i step rest w' H. unfold returns in H. cbn [run_steps].
    rewrite (bind_done _ _ _ _ _ H). cbn [trace].
    unfold run_step_calls. rewrite pick_app, (PushLog_trace _ _ _ _ _ H).
    cbn [pick call_of app].
    destruct (runStep_picks W env job step repoPath
                (world (PushLog env job (StartingStep (i + 1) (Name step)) w')))
      as (_ & RC & _).
    unfold run_step_calls in RC. unfold bind.
    destruct (out (runStep env job step repoPath _)); cbn [trace].
    + rewrite pick_app, RC. eexists. reflexivity.
    + rewrite RC. eexists. reflexivity.
Qed.

Lemma loadConfig_missing_fields_load_empty_witness :
  returns
    (loadConfig
       (lab (Ok "steps: [{name: build}]")
          (Document (MappingNode [(str "steps", SequenceNode [MappingNode [(str "name", str "build")]])])))
       "/src") 0%nat (Ok (mkConfig [mkStep "build" EmptyString EmptyString])).
Proof.
  apply (loadConfig_missing_fields_load_empty nat
           (lab (Ok "steps: [{name: build}]")
              (Document (MappingNode [(str "steps", SequenceNode [MappingNode [(str "name", str "build")]])])))
           "/src" 0%nat "steps: [{name: build}]" [mkStepObject (Some "build") None None]);
    reflexivity.
Defined.

(** C5, as stated, fails: a step object without [runs] is no error; it
    loads with an empty command, the run creates and runs its container
    ([/bin/sh -c] with an empty script), and the job is marked successful. *)
Lemma loadConfig_step_without_command_runs :
  let doc :=
    Document (MappingNode
      [(str "steps", SequenceNode [MappingNode [(str "name", str "build"); (str "image", str "alpine")]])]) in
  let env := lab (Ok "steps: [{name: build, image: alpine}]") doc in
  returns (loadConfig env "/src") 0%nat (Ok (mkConfig [mkStep "build" "alpine" EmptyString])) /\
  ~ (exists e, returns (loadConfig env "/src") 0%nat (Err e)) /\
  run_step_calls (trace (Run env lab_job 0%nat)) = [mkStep "build" "alpine" EmptyString] /\
  container_creates (trace (Run env lab_job 0%nat)) =
    [mkContainerConfig "alpine" "/app" ["/bin/sh"; "-c"; EmptyString] true] /\
  status_updates (trace (Run env lab_job 0%nat)) = [(7%N, 0%Z)].
Proof.
  cbv zeta. split; [|split; [|split; [|split]]]; try reflexivity.
  intros [e H]. discriminate H.
Qed.

Lemma among_single {A} (l : list A) (c : A) : among l [c] -> l = [] \/ l = [c].
Proof.
  intros H. inversion H as [| x l1 l2 S | x l1 l2 S]; subst; inversion S; subst; auto.
Qed.

(** ** The job runner *)

Section RunFacts.

Variable W : Type.
Variable env : Env W.
Variable job : Job.

Lemma final_settles l status w :
  verdict l status ->
  settles job ((PushLog env job l ;;; updateJobStatus env job status) w).
Proof.
  intros V. unfold settles, bind. rewrite PushLog_eq.
  destruct (snd (db_insert_log env (Id job) (render l) w)) as [e|]; cbn [out trace world].
  - exists [DbInsertLog (Id job) l]. split; [repeat constructor|]. right.
    split; [reflexivity | exists e; reflexivity].
  - exists []. split; [constructor|]. left. exists l, status.
    split; [rewrite updateJobStatus_eq; reflexivity | exact V].
Qed.

Lemma final_trace l status w :
  returns (PushLog env job l ;;; updateJobStatus env job status) w tt ->
  trace ((PushLog env job l ;;; updateJobStatus env job status) w) = closing job l status.
Proof.
  unfold returns, bind. rewrite PushLog_eq.
  destruct (snd (db_insert_log env (Id job) (render l) w)) as [e|]; cbn [out trace world].
  - discriminate.
  - intros _. rewrite updateJobStatus_eq. reflexivity.
Qed.

Lemma final_plain l status :
  starting_of l = None ->
  emits plain (PushLog env job l ;;; updateJobStatus env job status).
Proof.
  intros H. apply emits_bind; [apply PushLog_plain; exact H|].
  intros _. apply updateJobStatus_plain.
Qed.

Lemma settles_bind {A} (m : M W A) (f : A -> M W unit) w :
  emits quiet m -> (forall a w', settles job (f a w')) -> settles job (bind m f w).
Proof.
  intros Hm Hf. unfold settles, bind.
  destruct (out (m w)) as [a|e]; cbn [out trace].
  - destruct (Hf a (world (m w))) as (t & Ht & H).
    exists (trace (m w) ++ t)%list. split; [apply Forall_app; split; [apply Hm | exact Ht]|].
    destruct H as [(l & status & -> & V) | (-> & e & E)].
    + left. exists l, status. split; [apply app_assoc | exact V].
    + right. split; [reflexivity | exists e; exact E].
  - exists (trace (m w)). split; [apply Hm|]. right.
    split; [reflexivity | exists e; reflexivity].
Qed.

Lemma run_steps_settles repoPath steps :
  forall i w, settles job (run_steps env job repoPath i steps w).
Proof.
  induction steps as [|step rest IH]; intros i w; cbn [run_steps].
  - apply final_settles. left. split; reflexivity.
  - apply settles_bind; [apply PushLog_quiet|]. intros _ w1.
    apply settles_bind; [apply runStep_quiet|]. intros [e|] w2.
    + apply final_settles. right. split; [exact I | reflexivity].
    + apply settles_bind; [apply PushLog_quiet|]. intros _ w3. apply IH.
Qed.

Lemma Run_settles w : settles job (Run env job w).
Proof.
  unfold Run.
  apply settles_bind; [apply PushLog_quiet|]. intros _ w1.
  apply settles_bind; [apply cloneRepository_quiet|]. intros [repoPath|err] w2.
  - apply settles_bind; [apply loadConfig_quiet|]. intros [config|err] w3.
    + apply settles_bind; [apply emits_call; reflexivity|]. intros [e|] w4.
      * apply final_settles. right. split; [exact I | reflexivity].
      * apply run_steps_settles.
    + apply final_settles. right. split; [exact I | reflexivity].
  - apply final_settles. right. split; [exact I | reflexivity].
Qed.

(** The record of a run that reaches the step loop: a prelude without
    step events, then the loop. *)
Lemma Run_at_loop w repoPath config w' :
  reaches_loop env job w repoPath config w' ->
  exists t0,
    Forall plain t0 /\
    Run env job w =
    mkRes (t0 ++ trace (run_steps env job repoPath 0 (Steps config) w'))%list
          (world (run_steps env job repoPath 0 (Steps config) w'))
          (out (run_steps env job repoPath 0 (Steps config) w')).
Proof.
  intros (H0 & H1 & H2 & H3 & ->). unfold returns, after in *.
  exists (trace (PushLog env job (StartingJob (ProjectName (JobProject job))) w)
          ++ trace (cloneRepository env job
                      (world (PushLog env job (StartingJob (ProjectName (JobProject job))) w)))
          ++ trace (loadConfig env repoPath
                      (world (cloneRepository env job
                         (world (PushLog env job (StartingJob (ProjectName (JobProject job))) w)))))
          ++ [NewClient])%list.
  split.
  - apply Forall_app; split; [apply PushLog_plain; reflexivity|].
    apply Forall_app; split; [apply cloneRepository_plain|].
    apply Forall_app; split; [apply loadConfig_plain | repeat constructor].
  - unfold Run.
    rewrite (bind_done _ _ _ _ _ H0); cbn [trace world out].
    rewrite (bind_done _ _ _ _ _ H1); cbn [trace world out].
    rewrite (bind_done _ _ _ _ _ H2); cbn [trace world out].
    rewrite bind_call; cbn [trace world out]. rewrite H3. cbn [app].
    rewrite <- !app_assoc. reflexivity.
Qed.

(** The record of the loop over steps that all pass. *)
Lemma run_steps_pass repoPath rest pre :
  forall i w w',
  steps_pass env job repoPath i pre w w' ->
  exists T,
    run_steps env job repoPath i (pre ++ rest) w =
    mkRes (T ++ trace (run_steps env job repoPath (i + Z.of_nat (length pre)) rest w'))%list
          (world (run_steps env job repoPath (i + Z.of_nat (length pre)) rest w'))
          (out (run_steps env job repoPath (i + Z.of_nat (length pre)) rest w')) /\
    starting_steps T = announced i pre /\
    run_step_calls T = pre /\
    among (container_creates T) (map container_of pre).
Proof.
  induction pre as [|step pre IH]; intros i w w' H; inversion H; subst.
  - exists []. cbn [app length Z.of_nat]. rewrite Z.add_0_r.
    split; [destruct (run_steps env job repoPath i rest w'); reflexivity|].
    repeat split; constructor.
  - match goal with Hp : step_passes _ _ _ _ _ _ _ |- _ =>
      destruct Hp as (H1 & H2 & H3 & ->) end.
    match goal with Hs : steps_pass _ _ _ _ _ _ _ |- _ =>
      destruct (IH _ _ _ Hs) as (T & E & A & C & K) end.
    unfold returns, after in *.
    exists (trace (PushLog env job (StartingStep (i + 1) (Name step)) w)
            ++ trace (runStep env job step repoPath
                        (world (PushLog env job (StartingStep (i + 1) (Name step)) w)))
            ++ trace (PushLog env job (StepCompleted (i + 1))
                        (world (runStep env job step repoPath
                           (world (PushLog env job (StartingStep (i + 1) (Name step)) w)))))
            ++ T)%list.
    destruct (runStep_picks W env job step repoPath
                (world (PushLog env job (StartingStep (i + 1) (Name step)) w)))
      as (RA & RC & RK).
    unfold starting_steps, run_step_calls, container_creates in *.
    split; [|split; [|split]].
    + cbn [app run_steps].
      rewrite (bind_done _ _ _ _ _ H1); cbn [trace world out].
      rewrite (bind_done _ _ _ _ _ H2); cbn [trace world out].
      rewrite (bind_done _ _ _ _ _ H3); cbn [trace world out].
      rewrite E; cbn [trace world out].
      replace (i + Z.of_nat (length (step :: pre)))%Z with (i + 1 + Z.of_nat (length pre))%Z
        by (cbn [length]; lia).
      rewrite <- !app_assoc. reflexivity.
    + rewrite !pick_app, A, RA.
      rewrite (PushLog_trace _ _ _ _ _ H1), (PushLog_trace _ _ _ _ _ H3). reflexivity.
    + rewrite !pick_app, C, RC.
      rewrite (PushLog_trace _ _ _ _ _ H1), (PushLog_trace _ _ _ _ _ H3). reflexivity.
    + rewrite !pick_app.
      rewrite (PushLog_trace _ _ _ _ _ H1), (PushLog_trace _ _ _ _ _ H3).
      cbn [pick create_of app map].
      destruct (among_single _ _ RK) as [R | R]; rewrite R; cbn [app].
      * apply among_drop. exact K.
      * apply among_take. exact K.
Qed.

End RunFacts.

Lemma announced_app steps1 steps2 :
  forall i,
  announced i (steps1 ++ steps2) =
  (announced i steps1 ++ announced (i + Z.of_nat (length steps1)) steps2)%list.
Proof.
  induction steps1 as [|s steps1 IH]; intros i; cbn [app announced length].
  - rewrite Z.add_0_r. reflexivity.
  - rewrite IH. do 3 f_equal. lia.
Qed.


Lemma among_app {A} (a1 a2 b1 b2 : list A) :
  among a1 b1 -> among a2 b2 -> among (a1 ++ a2) (b1 ++ b2).
Proof.
  induction 1; intros H2; cbn [app]; [exact H2 | apply among_drop; auto | apply among_take; auto].
Qed.

Section Paths.

Variable W : Type.
Variable env : Env W.
Variable job : Job.

Abbreviation start := (PushLog env job (StartingJob (ProjectName (JobProject job)))).

Lemma ends_closing w t l status w' :
  ends env job w t l status w' -> returns (Run env job) w tt ->
  trace (Run env job w) = (t ++ closing job l status)%list.
Proof.
  unfold ends, returns. intros E H. rewrite E in *. cbn [trace out] in *.
  rewrite (final_trace _ _ _ _ _ _ H). reflexivity.
Qed.

Lemma Run_clone_failed w err :
  returns start w tt ->
  returns (cloneRepository env job) (after start w) (Err err) ->
  exists t, ends env job w t (CloneFailed err) (-1) (after (cloneRepository env job) (after start w)).
Proof.
  unfold returns, after, ends, start. intros H0 H1. eexists. unfold Run.
  rewrite (bind_done _ _ _ _ _ H0); cbn [trace world out].
  rewrite (bind_done _ _ _ _ _ H1); cbn [trace world out].
  rewrite app_assoc. reflexivity.
Qed.

Lemma Run_load_failed w repoPath err :
  returns start w tt ->
  returns (cloneRepository env job) (after start w) (Ok repoPath) ->
  returns (loadConfig env repoPath) (after (cloneRepository env job) (after start w)) (Err err) ->
  exists t, ends env job w t (LoadConfigFailed err) (-1)
              (after (loadConfig env repoPath) (after (cloneRepository env job) (after start w))).
Proof.
  unfold returns, after, ends, start. intros H0 H1 H2. eexists. unfold Run.
  rewrite (bind_done _ _ _ _ _ H0); cbn [trace world out].
  rewrite (bind_done _ _ _ _ _ H1); cbn [trace world out].
  rewrite (bind_done _ _ _ _ _ H2); cbn [trace world out].
  rewrite !app_assoc. reflexivity.
Qed.

Lemma Run_client_failed w repoPath config err :
  returns start w tt ->
  returns (cloneRepository env job) (after start w) (Ok repoPath) ->
  returns (loadConfig env repoPath) (after (cloneRepository env job) (after start w)) (Ok config) ->
  snd (docker_new_client env
         (after (loadConfig env repoPath) (after (cloneRepository env job) (after start w))))
    = Some err ->
  exists t, ends env job w t (DockerClientFailed err) (-1)
              (fst (docker_new_client env
                 (after (loadConfig env repoPath) (after (cloneRepository env job) (after start w))))).
Proof.
  unfold returns, after, ends, start. intros H0 H1 H2 H3. eexists. unfold Run.
  rewrite (bind_done _ _ _ _ _ H0); cbn [trace world out].
  rewrite (bind_done _ _ _ _ _ H1); cbn [trace world out].
  rewrite (bind_done _ _ _ _ _ H2); cbn [trace world out].
  rewrite bind_call; cbn [trace world out]. rewrite H3.
  rewrite !app_assoc.
  change (?a ++ NewClient :: ?b)%list with (a ++ [NewClient] ++ b)%list.
  rewrite app_assoc. reflexivity.
Qed.

(** The loop fails at the step after [pre]. *)
Lemma run_steps_fail repoPath pre step post w0 wk e wf :
  steps_pass env job repoPath 0 pre w0 wk ->
  step_fails env job repoPath (Z.of_nat (length pre)) step wk e wf ->
  exists T,
    run_steps env job repoPath 0 (pre ++ step :: post) w0 =
    mkRes (T ++ trace ((PushLog env job (StepFailed (Z.of_nat (S (length pre))) e) ;;;
                        updateJobStatus env job (-1)) wf))%list
          (world ((PushLog env job (StepFailed (Z.of_nat (S (length pre))) e) ;;;
                   updateJobStatus env job (-1)) wf))
          (out ((PushLog env job (StepFailed (Z.of_nat (S (length pre))) e) ;;;
                 updateJobStatus env job (-1)) wf)) /\
    starting_steps T = announced 0 (pre ++ [step]) /\
    run_step_calls T = (pre ++ [step])%list /\
    among (container_creates T) (map container_of (pre ++ [step])).
Proof.
  intros Hp (H1 & H2 & ->).
  destruct (run_steps_pass W env job repoPath (step :: post) pre _ _ _ Hp) as (T & E & A & C & K).
  unfold returns, after in *. rewrite Z.add_0_l in E.
  replace (Z.of_nat (S (length pre))) with (Z.of_nat (length pre) + 1)%Z by lia.
  set (i := Z.of_nat (length pre)) in *.
  destruct (runStep_picks W env job step repoPath
              (world (PushLog env job (StartingStep (i + 1) (Name step)) wk)))
    as (RA & RC & RK).
  exists (T ++ trace (PushLog env job (StartingStep (i + 1) (Name step)) wk)
            ++ trace (runStep env job step repoPath
                        (world (PushLog env job (StartingStep (i + 1) (Name step)) wk))))%list.
  unfold starting_steps, run_step_calls, container_creates in *.
  split; [|split; [|split]].
  - rewrite E. cbn [run_steps].
    rewrite (bind_done _ _ _ _ _ H1); cbn [trace world out].
    rewrite (bind_done _ _ _ _ _ H2); cbn [trace world out].
    rewrite <- !app_assoc. reflexivity.
  - rewrite !pick_app, A, RA, (PushLog_trace _ _ _ _ _ H1), announced_app.
    cbn [pick announce_of starting_of announced app]. rewrite Z.add_0_l. fold i.
    reflexivity.
  - rewrite !pick_app, C, RC, (PushLog_trace _ _ _ _ _ H1). reflexivity.
  - rewrite !pick_app, (PushLog_trace _ _ _ _ _ H1), map_app.
    apply among_app; [exact K | exact RK].
Qed.

End Paths.

(** The text of the lines: among the lines [Run] itself formats, those
    that begin with "Starting step " are the lines of line 350. *)
Lemma render_starting_step (l : LogLine) :
  match l with
  | CloneOutput _ | ContainerOutput _ => True
  | StartingStep _ _ => String.prefix "Starting step " (render l) = true
  | _ => String.prefix "Starting step " (render l) = false
  end.
Proof.
  destruct l; try exact I; cbn; try reflexivity.
  match goal with |- String.prefix _ ?t = true => destruct t; reflexivity end.
Qed.



(** ** Runs that the store does not stop *)

Lemma survives_ret W A (a : A) : survives (@ret W A a).
Proof. intros w. exists a. reflexivity. Qed.

Lemma survives_call W A ev (h : W -> W * A) : survives (call ev h).
Proof. intros w. eexists. reflexivity. Qed.

Lemma survives_mark W ev : survives (@mark W ev).
Proof. intros w. exists tt. reflexivity. Qed.

Lemma survives_bind W A B (m : M W A) (f : A -> M W B) :
  survives m -> (forall a, survives (f a)) -> survives (bind m f).
Proof.
  intros Hm Hf w. destruct (Hm w) as (a & E). destruct (Hf a (world (m w))) as (b & E').
  exists b. rewrite (bind_done _ _ _ _ _ E). exact E'.
Qed.

Ltac survives_step :=
  match goal with
  | |- survives (bind _ _) => apply survives_bind; [|intros ?]
  | |- survives (call _ _) => apply survives_call
  | |- survives (mark _) => apply survives_mark
  | |- survives (ret _) => apply survives_ret
  | |- survives (match ?x with _ => _ end) => destruct x
  | |- survives (if ?x then _ else _) => destruct x
  end.

Section Reliable.

Variable W : Type.
Variable env : Env W.
Variable job : Job.
Hypothesis store : reliable env.

Lemma PushLog_survives l : survives (PushLog env job l).
Proof.
  intros w. exists tt. rewrite PushLog_eq. rewrite (proj1 store). reflexivity.
Qed.

Lemma updateJobStatus_survives status : survives (updateJobStatus env job status).
Proof.
  intros w. exists tt. rewrite updateJobStatus_eq. rewrite (proj2 store). reflexivity.
Qed.

Lemma push_lines_survives lines : survives (push_lines env job lines).
Proof.
  induction lines; cbn [push_lines]; repeat first [exact IHlines | apply PushLog_survives | survives_step].
Qed.

Lemma runStep_survives step repoPath : survives (runStep env job step repoPath).
Proof.
  unfold runStep, ensureImage, createAndStartContainer, streamLogs, waitForContainer.
  cbv zeta.
  repeat first [apply PushLog_survives | apply push_lines_survives | survives_step].
Qed.

Lemma run_steps_survives repoPath steps : forall i, survives (run_steps env job repoPath i steps).
Proof.
  induction steps as [|step rest IH]; intros i; cbn [run_steps];
    repeat first [apply IH | apply PushLog_survives | apply updateJobStatus_survives
                 | apply runStep_survives | survives_step].
Qed.

Lemma Run_survives : survives (Run env job).
Proof.
  unfold Run, cloneRepository, loadConfig. cbv zeta.
  repeat first [apply run_steps_survives | apply PushLog_survives
               | apply updateJobStatus_survives | survives_step].
Qed.

Lemma Run_returns w : returns (Run env job) w tt.
Proof. destruct (Run_survives w) as ([] & E). exact E. Qed.

End Reliable.

(** When the log stream of a started container breaks, or the wait for
    it fails, [runStep] returns the error and has removed nothing. *)
Lemma runStep_keeps_container W (env : Env W) job step repoPath w containerID e :
  returns (ensureImage env (Image step)) w None ->
  returns (createAndStartContainer env step repoPath) (after (ensureImage env (Image step)) w)
    (Ok containerID) ->
  let w2 := after (createAndStartContainer env step repoPath)
              (after (ensureImage env (Image step)) w) in
  let w3 := after (streamLogs env job containerID) w2 in
  (returns (streamLogs env job containerID) w2 (Some e) ->
   returns (runStep env job step repoPath) w (Some ("failed to stream logs: " ++ e)) /\
   Forall keeps (trace (runStep env job step repoPath w))) /\
  (returns (streamLogs env job containerID) w2 None ->
   snd (container_wait env containerID w3) = FromErrCh e ->
   returns (runStep env job step repoPath) w (Some ("failed to wait for container: " ++ e)) /\
   Forall keeps (trace (runStep env job step repoPath w))).
Proof.
  intros H1 H2 w2 w3. unfold returns, after in *.
  assert (K1 : Forall keeps (trace (ensureImage env (Image step) w))).
  { generalize w. change (emits keeps (ensureImage env (Image step))).
    unfold ensureImage. repeat first [apply emits_ret | exact I | emits_step]. }
  assert (K2 : Forall keeps (trace (createAndStartContainer env step repoPath
                                      (world (ensureImage env (Image step) w))))).
  { generalize (world (ensureImage env (Image step) w)).
    change (emits keeps (createAndStartContainer env step repoPath)).
    unfold createAndStartContainer. cbv zeta.
    repeat first [apply emits_ret | exact I | emits_step]. }
  assert (K3 : Forall keeps (trace (streamLogs env job containerID w2))).
  { generalize w2. change (emits keeps (streamLogs env job containerID)).
    assert (P : forall lines, emits keeps (push_lines env job lines)).
    { induction lines; cbn [push_lines]; unfold PushLog, inertLog;
        repeat first [exact IHlines | apply emits_ret | apply emits_fatal | exact I | emits_step]. }
    unfold streamLogs. repeat first [apply P | apply emits_ret | exact I | emits_step]. }
  split.
  - intros H3. unfold runStep. rewrite bind_mark.
    rewrite (bind_done _ _ _ _ _ H1); cbn [trace world out].
    rewrite (bind_done _ _ _ _ _ H2); cbn [trace world out].
    rewrite (bind_done _ _ _ _ _ H3); cbn [trace world out].
    split; [reflexivity|]. constructor; [exact I|].
    apply Forall_app; split; [exact K1|]. apply Forall_app; split; [exact K2|].
    apply Forall_app; split; [exact K3 | constructor].
  - intros H3 H4. unfold runStep. rewrite bind_mark.
    rewrite (bind_done _ _ _ _ _ H1); cbn [trace world out].
    rewrite (bind_done _ _ _ _ _ H2); cbn [trace world out].
    rewrite (bind_done _ _ _ _ _ H3); cbn [trace world out].
    rewrite bind_done with (a := ((-1)%Z, Some e))
      by (rewrite waitForContainer_eq; fold w2; fold w3; rewrite H4; reflexivity).
    cbn [trace world out snd]. rewrite waitForContainer_eq. cbn [trace].
    split; [reflexivity|]. constructor; [exact I|].
    apply Forall_app; split; [exact K1|]. apply Forall_app; split; [exact K2|].
    apply Forall_app; split; [exact K3 | repeat constructor].
Qed.

(** C3. The status write of a run.  Whatever the world, the record of
    [Run] holds at most one status update, and then as its last event.
    A run that returns (is not stopped by [log.Fatal]) holds exactly
    one, right after the last line it appends to the log, and that line
    goes with the status: "Job completed successfully" with 0, or a line
    reporting the failure with -1.  Path by path: a failed clone ends on
    "Failed to clone repository: ...", a manifest that does not load on
    "Failed to load configuration: ...", a Docker client that cannot be
    created on "Failed to create Docker client: ...", a failing step on
    "Step k failed: ...", each followed by the update to -1; steps that
    all pass end on "Job completed successfully" and the update to 0.
    A run returns whenever the store accepts every write. *)
Theorem Run_status_written_last_and_once W (env : Env W) job w :
  let start := PushLog env job (StartingJob (ProjectName (JobProject job))) in
  let w1 := after start w in
  let w2 := after (cloneRepository env job) w1 in
  let tr := trace (Run env job w) in
  (exists t, Forall quiet t /\
     (tr = t \/ exists status, tr = (t ++ [DbUpdateStatus (Id job) status])%list)) /\
  (returns (Run env job) w tt ->
   exists t l status,
     Forall quiet t /\ tr = (t ++ closing job l status)%list /\ verdict l status) /\
  (forall err,
     returns start w tt -> returns (cloneRepository env job) w1 (Err err) ->
     returns (Run env job) w tt ->
     exists t, tr = (t ++ closing job (CloneFailed err) (-1))%list) /\
  (forall repoPath err,
     returns start w tt -> returns (cloneRepository env job) w1 (Ok repoPath) ->
     returns (loadConfig env repoPath) w2 (Err err) ->
     returns (Run env job) w tt ->
     exists t, tr = (t ++ closing job (LoadConfigFailed err) (-1))%list) /\
  (forall repoPath config err,
     returns start w tt -> returns (cloneRepository env job) w1 (Ok repoPath) ->
     returns (loadConfig env repoPath) w2 (Ok config) ->
     snd (docker_new_client env (after (loadConfig env repoPath) w2)) = Some err ->
     returns (Run env job) w tt ->
     exists t, tr = (t ++ closing job (DockerClientFailed err) (-1))%list) /\
  (forall repoPath config w0 pre step post wk e wf,
     reaches_loop env job w repoPath config w0 ->
     Steps config = (pre ++ step :: post)%list ->
     steps_pass env job repoPath 0 pre w0 wk ->
     step_fails env job repoPath (Z.of_nat (length pre)) step wk e wf ->
     returns (Run env job) w tt ->
     exists t, tr = (t ++ closing job (StepFailed (Z.of_nat (S (length pre))) e) (-1))%list) /\
  (forall repoPath config w0 w',
     reaches_loop env job w repoPath config w0 ->
     steps_pass env job repoPath 0 (Steps config) w0 w' ->
     returns (Run env job) w tt ->
     exists t, tr = (t ++ closing job JobCompleted 0)%list) /\
  (reliable env -> returns (Run env job) w tt).
Proof.
  intros start w1 w2 tr.
  destruct (Run_settles W env job w) as (t & Q & S). fold tr in S.
  split; [|split; [|split; [|split; [|split; [|split; [|split]]]]]].
  - destruct S as [(l & status & -> & V) | (-> & _)].
    + exists (t ++ [DbInsertLog (Id job) l; Println (render l)])%list. split.
      * apply Forall_app. split; [exact Q | repeat constructor].
      * right. exists status. unfold closing. rewrite <- app_assoc. reflexivity.
    + exists t. split; [exact Q | left; reflexivity].
  - intros Hret. destruct S as [(l & status & E & V) | (_ & e & E)].
    + exists t, l, status. auto.
    + unfold returns in Hret. rewrite E in Hret. discriminate.
  - intros err H0 H1 Hret.
    destruct (Run_clone_failed W env job w err H0 H1) as (t' & E).
    exists t'. apply (ends_closing _ _ _ _ _ _ _ _ E Hret).
  - intros repoPath err H0 H1 H2 Hret.
    destruct (Run_load_failed W env job w repoPath err H0 H1 H2) as (t' & E).
    exists t'. apply (ends_closing _ _ _ _ _ _ _ _ E Hret).
  - intros repoPath config err H0 H1 H2 H3 Hret.
    destruct (Run_client_failed W env job w repoPath config err H0 H1 H2 H3) as (t' & E).
    exists t'. apply (ends_closing _ _ _ _ _ _ _ _ E Hret).
  - intros repoPath config w0 pre step post wk e wf Hreach Hsteps Hpass Hfail Hret.
    destruct (Run_at_loop W env job w repoPath config w0 Hreach) as (t0 & _ & E0).
    destruct (run_steps_fail W env job repoPath pre step post w0 wk e wf Hpass Hfail)
      as (T & E & _).
    rewrite Hsteps, E in E0. cbn [trace world out] in E0. rewrite app_assoc in E0.
    exists (t0 ++ T)%list. apply (ends_closing _ _ _ _ _ _ _ _ E0 Hret).
  - intros repoPath config w0 w' Hreach Hpass Hret.
    destruct (Run_at_loop W env job w repoPath config w0 Hreach) as (t0 & _ & E0).
    destruct (run_steps_pass W env job repoPath [] (Steps config) _ _ _ Hpass) as (T & E & _).
    rewrite app_nil_r in E. rewrite E in E0. cbn [trace world out run_steps] in E0.
    rewrite app_assoc in E0.
    exists (t0 ++ T)%list. apply (ends_closing _ _ _ _ _ _ _ _ E0 Hret).
  - intros Hstore. apply Run_returns. exact Hstore.
Qed.

Lemma Run_status_written_last_and_once_witness :
  let gone := mkJob 9 "main" "-1" (mkProject 2 "gone" "https://example.org/gone.git") in
  let tr := trace (Run (lab (Ok "steps: []") NoDocument) gone 0%nat) in
  (exists t l status,
     Forall quiet t /\ tr = (t ++ closing gone l status)%list /\ verdict l status) /\
  (exists t,
     tr = (t ++ closing gone
                  (CloneFailed "git clone error: exit status 128, output: fatal: repository not found")
                  (-1))%list).
Proof.
  intros gone. split.
  - apply (proj1 (proj2 (Run_status_written_last_and_once nat (lab (Ok "steps: []") NoDocument) gone 0%nat))).
    reflexivity.
  - apply (proj1 (proj2 (proj2
             (Run_status_written_last_and_once nat (lab (Ok "steps: []") NoDocument) gone 0%nat))));
      reflexivity.
Defined.

(** C10. An empty pipeline succeeds.  When the clone succeeds, the
    manifest file is read and decodes without error to a configuration
    of no steps (whatever the document is: one without a [steps] key,
    with an empty list, with a null), and the Docker client is created,
    [loadConfig] accepts the manifest and returns that configuration,
    and a run that returns has recorded no "Starting step" line, has
    entered the Step Executor for no step, has created no container, and
    ends with the line "Job completed successfully" followed by the
    status update to 0. *)
Theorem Run_empty_pipeline W (env : Env W) job w repoPath data config :
  let start := PushLog env job (StartingJob (ProjectName (JobProject job))) in
  let w1 := after start w in
  let w2 := after (cloneRepository env job) w1 in
  returns start w tt ->
  returns (cloneRepository env job) w1 (Ok repoPath) ->
  snd (read_file env (filepath_Join env repoPath "duck-ci.yml") w2) = Ok data ->
  Unmarshal (base64_DecodeString env) (yaml_parse env data) (yaml_lines env data) zero_Config
    = (config, None) ->
  Steps config = [] ->
  snd (docker_new_client env (after (loadConfig env repoPath) w2)) = None ->
  returns (Run env job) w tt ->
  returns (loadConfig env repoPath) w2 (Ok config) /\
  starting_steps (trace (Run env job w)) = [] /\
  run_step_calls (trace (Run env job w)) = [] /\
  container_creates (trace (Run env job w)) = [] /\
  exists t, trace (Run env job w) = (t ++ closing job JobCompleted 0)%list.
Proof.
  intros start w1 w2 H0 H1 Hf Hu Hz Hc Hret.
  assert (H2 : returns (loadConfig env repoPath) w2 (Ok config)).
  { unfold returns. rewrite (loadConfig_read _ _ _ _ _ Hf), Hu. reflexivity. }
  split; [exact H2|].
  destruct (Run_at_loop W env job w repoPath config
              (fst (docker_new_client env (after (loadConfig env repoPath) w2))))
    as (t0 & P0 & E0).
  { unfold reaches_loop. fold start. fold w1. fold w2. auto. }
  rewrite Hz in E0. cbn [run_steps] in E0.
  destruct (plain_picks _ P0) as (A0 & C0 & K0).
  assert (Pf : Forall plain
                 (trace ((PushLog env job JobCompleted ;;; updateJobStatus env job 0)
                           (fst (docker_new_client env (after (loadConfig env repoPath) w2))))))
    by (apply final_plain; reflexivity).
  destruct (plain_picks _ Pf) as (Af & Cf & Kf).
  unfold starting_steps, run_step_calls, container_creates in *.
  rewrite E0. cbn [trace]. rewrite !pick_app, A0, C0, K0, Af, Cf, Kf.
  repeat split; try reflexivity.
  exists t0. unfold returns in Hret. rewrite E0 in Hret. cbn [out] in Hret.
  rewrite (final_trace _ _ _ _ _ _ Hret). reflexivity.
Qed.

Lemma Run_empty_pipeline_witness :
  let env := lab (Ok "version: 2") (Document (MappingNode [(str "version", str "2")])) in
  returns (loadConfig env "/tmp/duck-ci/demo-task-7") 3%nat (Ok (mkConfig [])) /\
  starting_steps (trace (Run env lab_job 0%nat)) = [] /\
  run_step_calls (trace (Run env lab_job 0%nat)) = [] /\
  container_creates (trace (Run env lab_job 0%nat)) = [] /\
  exists t, trace (Run env lab_job 0%nat) = (t ++ closing lab_job JobCompleted 0)%list.
Proof.
  intros env.
  apply (Run_empty_pipeline nat env lab_job 0%nat "/tmp/duck-ci/demo-task-7" "version: 2"
           (mkConfig [])); reflexivity.
Defined.

(** ** The status of a job, from creation to verdict *)

Lemma createJob_trace W (env : Env W) projectId branch w :
  exists t,
    trace (createJob env projectId branch w) = DbInsertJob projectId branch (-1) :: t /\
    status_writes t = [].
Proof.
  unfold createJob. rewrite bind_call. cbn [trace].
  destruct (snd (db_insert_job env projectId branch (-1) w)) as [id|e].
  - exists [DbGetJob (fmt_u id)]. split; reflexivity.
  - exists []. split; reflexivity.
Qed.

Lemma quiet_status_writes t : Forall quiet t -> status_writes t = [].
Proof. intros H. apply pick_none. exact H. Qed.

(** C2. The status values sent to the store for one job, from the POST
    that creates it to the end of its run, are [-1] alone (the job is
    created, and its run has not, or not yet, written a verdict), or
    [-1; 0] (the run ended on "Job completed successfully"), or
    [-1; -1] (the run ended on a line reporting a failure): only -1 and
    0 are ever written, nothing is written after the verdict, and the
    code written at creation is the code written for a failed run. *)
Theorem job_status_sequence W (env : Env W) projectId branch w :
  let tr := trace (TaskView_post env projectId branch w) in
  hd_error tr = Some (DbInsertJob projectId branch (-1)) /\
  (status_writes tr = [(-1)%Z] \/
   (status_writes tr = [(-1)%Z; 0%Z] /\
    exists job t,
      returns (createJob env projectId branch) w (Ok job) /\
      tr = (t ++ closing job JobCompleted 0)%list) \/
   (status_writes tr = [(-1)%Z; (-1)%Z] /\
    exists job t l,
      returns (createJob env projectId branch) w (Ok job) /\
      failure_line l /\ tr = (t ++ closing job l (-1))%list)).
Proof.
  intros tr. subst tr. unfold TaskView_post.
  destruct (createJob_trace W env projectId branch w) as (tc & Ec & Sc).
  unfold bind, returns.
  destruct (out (createJob env projectId branch w)) as [[job|e]|e] eqn:Ej;
    cbn [trace]; rewrite Ec; cbn [app hd_error]; (split; [reflexivity|]).
  - destruct (Run_settles W env job (world (createJob env projectId branch w)))
      as (t & Q & [(l & status & -> & V) | (-> & _)]).
    + assert (S : status_writes
                    (DbInsertJob projectId branch (-1) :: tc ++ t ++ closing job l status)
                  = [(-1)%Z; status]).
      { unfold status_writes in *. cbn [pick status_of]. rewrite !pick_app, Sc.
        fold status_writes. rewrite (quiet_status_writes _ Q). reflexivity. }
      destruct V as [(-> & ->) | (F & ->)].
      * right. left. split; [exact S|].
        exists job, (DbInsertJob projectId branch (-1) :: tc ++ t)%list.
        split; [reflexivity|]. cbn [app]. rewrite <- app_assoc. reflexivity.
      * right. right. split; [exact S|].
        exists job, (DbInsertJob projectId branch (-1) :: tc ++ t)%list, l.
        split; [reflexivity|]. split; [exact F|]. cbn [app]. rewrite <- app_assoc. reflexivity.
    + left. unfold status_writes in *. cbn [pick status_of]. rewrite pick_app, Sc.
      fold status_writes. rewrite (quiet_status_writes _ Q). reflexivity.
  - left. unfold status_writes in *. cbn [pick status_of trace]. rewrite app_nil_r, Sc.
    reflexivity.
  - left. unfold status_writes in *. cbn [pick status_of]. rewrite Sc. reflexivity.
Qed.

(** * Further properties of the engine *)

(** ** The log stream of a container *)

Lemma push_lines_trace W (env : Env W) job lines :
  forall w,
  (out (push_lines env job lines w) = Done tt /\
   trace (push_lines env job lines w) = forwarded job lines) \/
  (exists e n line,
     nth_error lines n = Some line /\
     out (push_lines env job lines w) = Fatal e /\
     trace (push_lines env job lines w) =
     (forwarded job (firstn n lines) ++ [DbInsertLog (Id job) (ContainerOutput line)])%list).
Proof.
  induction lines as [|line rest IH]; intros w; cbn [push_lines].
  - left. split; reflexivity.
  - destruct (snd (db_insert_log env (Id job) (render (ContainerOutput line)) w)) as [e|] eqn:E.
    + assert (HF : out (PushLog env job (ContainerOutput line) w) = Fatal e)
        by (rewrite PushLog_eq, E; reflexivity).
      rewrite (bind_fatal _ _ _ _ _ HF). cbn [out trace]. rewrite PushLog_eq, E. cbn [trace].
      right. exists e, 0%nat, line. repeat split; reflexivity.
    + assert (HD : out (PushLog env job (ContainerOutput line) w) = Done tt)
        by (rewrite PushLog_eq, E; reflexivity).
      rewrite (bind_done _ _ _ _ _ HD). cbn [out trace]. rewrite PushLog_eq, E.
      cbn [trace world].
      destruct (IH (fst (db_insert_log env (Id job) (render (ContainerOutput line)) w)))
        as [(Ho & Ht) | (e & n & l & Hn & Ho & Ht)]; rewrite Ho, Ht.
      * left. split; reflexivity.
      * right. exists e, (S n), l. repeat split; try reflexivity. exact Hn.
Qed.

(** X1. [streamLogs] forwards the output of a container line by line, in
    order and without change: when the stream opens, the lines it has
    sent to the job's log are always a prefix of the lines of the stream,
    each filed under the job's id; and when it returns, they are all the
    lines, each printed too, the stream is closed last, and the result
    is [scanner.Err()]. *)
Theorem streamLogs_forwards_in_order W (env : Env W) job containerID w stream :
  snd (container_logs env containerID w) = Ok stream ->
  (exists n,
     stored_lines (trace (streamLogs env job containerID w)) =
     map (fun line => (Id job, ContainerOutput line)) (firstn n (stream_lines stream))) /\
  (forall r, returns (streamLogs env job containerID) w r ->
     r = stream_err stream /\
     trace (streamLogs env job containerID w) =
     (ContainerLogs containerID :: forwarded job (stream_lines stream)
      ++ [LogsClose containerID])%list).
Proof.
  intros Hs.
  assert (F : forall lines,
            stored_lines (forwarded job lines) =
            map (fun line => (Id job, ContainerOutput line)) lines).
  { induction lines as [|l lines IH]; [reflexivity|].
    unfold stored_lines in *. cbn. rewrite <- IH. reflexivity. }
  unfold streamLogs, returns. rewrite bind_call, Hs. cbn [out trace].
  set (w1 := fst (container_logs env containerID w)).
  destruct (push_lines_trace W env job (stream_lines stream) w1)
    as [(Ho & Ht) | (e & n & l & Hn & Ho & Ht)].
  - rewrite (bind_done _ _ _ _ _ Ho), Ht. cbn [out trace world]. split.
    + exists (length (stream_lines stream)). rewrite firstn_all.
      unfold stored_lines in *. cbn [pick stored_of]. rewrite pick_app, F. cbn.
      apply app_nil_r.
    + intros r H. injection H as <-. split; reflexivity.
  - rewrite (bind_fatal _ _ _ _ _ Ho), Ht. cbn [out trace world]. split.
    + exists (S n). unfold stored_lines in *. cbn [pick stored_of]. rewrite pick_app, F.
      cbn [pick stored_of].
      clear - Hn. revert n Hn. induction (stream_lines stream) as [|x xs IH]; intros [|n] Hn;
        try discriminate; cbn in *.
      * injection Hn as <-. reflexivity.
      * f_equal. apply IH. exact Hn.
    + intros r H. discriminate H.
Qed.

Lemma streamLogs_forwards_in_order_witness :
  stored_lines (trace (streamLogs (lab (Ok "steps: []") NoDocument) lab_job "make" 0%nat)) =
  [(7%N, ContainerOutput "+ make")] /\
  trace (streamLogs (lab (Ok "steps: []") NoDocument) lab_job "make" 0%nat) =
  [ContainerLogs "make"; DbInsertLog 7 (ContainerOutput "+ make"); Println "+ make";
   LogsClose "make"].
Proof.
  destruct (streamLogs_forwards_in_order nat (lab (Ok "steps: []") NoDocument) lab_job "make"
              0%nat (mkLogStream ["+ make"] None) eq_refl) as (_ & H).
  destruct (H None eq_refl) as (_ & E).
  split; [reflexivity | exact E].
Defined.

(** ** The container of a step, call by call *)

Ltac offstage_all :=
  repeat first [apply emits_ret | apply emits_fatal | reflexivity | emits_step].

Section Lifecycle.

Variable W : Type.
Variable env : Env W.
Variable job : Job.

Lemma PushLog_offstage l : emits offstage (PushLog env job l).
Proof. unfold PushLog, inertLog. offstage_all. Qed.

Lemma push_lines_offstage lines : emits offstage (push_lines env job lines).
Proof.
  induction lines; cbn [push_lines]; [apply emits_ret|].
  apply emits_bind; [apply PushLog_offstage | intros _; exact IHlines].
Qed.

Lemma ensureImage_offstage image : emits offstage (ensureImage env image).
Proof. unfold ensureImage. offstage_all. Qed.

Lemma offstage_lifecycle t : Forall offstage t -> lifecycle t = [].
Proof. intros H. apply pick_none. exact H. Qed.

Lemma createAndStartContainer_eq step repoPath w :
  let made := container_create env (container_of step) (mkHostConfig [repoPath ++ ":/app"]) w in
  createAndStartContainer env step repoPath w =
  match snd made with
  | Err e =>
      mkRes [ContainerCreate (container_of step) (mkHostConfig [repoPath ++ ":/app"])]
            (fst made) (Done (Err e))
  | Ok ID =>
      mkRes [ContainerCreate (container_of step) (mkHostConfig [repoPath ++ ":/app"]);
             ContainerStart ID]
            (fst (container_start env ID (fst made)))
            (Done match snd (container_start env ID (fst made)) with
                  | Some e => Err e
                  | None => Ok ID
                  end)
  end.
Proof.
  cbv zeta. unfold createAndStartContainer. cbv zeta. rewrite bind_call.
  fold (container_of step).
  destruct (snd (container_create env (container_of step) _ w)) as [ID|e]; [|reflexivity].
  rewrite bind_call. cbn [trace world out].
  destruct (snd (container_start env ID _)); reflexivity.
Qed.

Lemma createAndStartContainer_started step repoPath w containerID :
  returns (createAndStartContainer env step repoPath) w (Ok containerID) ->
  trace (createAndStartContainer env step repoPath w) =
  [ContainerCreate (container_of step) (mkHostConfig [repoPath ++ ":/app"]);
   ContainerStart containerID].
Proof.
  unfold returns. rewrite createAndStartContainer_eq. cbv zeta.
  destruct (snd (container_create env (container_of step) _ w)) as [ID|e]; cbn [out trace].
  - destruct (snd (container_start env ID _)); intros H; [discriminate|].
    injection H as <-. reflexivity.
  - discriminate.
Qed.

Lemma streamLogs_lifecycle containerID w :
  lifecycle (trace (streamLogs env job containerID w)) = [ContainerLogs containerID].
Proof.
  unfold streamLogs. rewrite bind_call. cbn [trace]. unfold lifecycle.
  cbn [pick lifecycle_of]. f_equal. apply pick_none.
  match goal with |- Forall _ (trace (?m ?x)) => generalize x; intros w1 end.
  emits_goal.
  destruct (snd (container_logs env containerID w)); [|apply emits_ret].
  apply emits_bind; [apply push_lines_offstage | intros _].
  offstage_all.
Qed.

(** What [runStep] does after the output has been streamed and the wait
    has delivered a status. *)
Lemma runStep_waited step repoPath w containerID w3 code :
  step_streamed env job step repoPath w containerID w3 ->
  snd (container_wait env containerID w3) = FromStatusCh code ->
  let removed := container_remove env containerID (fst (container_wait env containerID w3)) in
  let streamed :=
    (EnterRunStep step repoPath :: trace (ensureImage env (Image step) w)
     ++ trace (createAndStartContainer env step repoPath (after (ensureImage env (Image step)) w))
     ++ trace (streamLogs env job containerID
                 (after (createAndStartContainer env step repoPath)
                    (after (ensureImage env (Image step)) w))))%list in
  let verdict := if negb (code =? 0)%Z
                 then Some ("step failed with status code: " ++ fmt_d code) else None in
  match snd removed with
  | None =>
      runStep env job step repoPath w =
      mkRes (streamed ++ [ContainerWait containerID; ContainerRemove containerID])%list
            (fst removed) (Done verdict)
  | Some e =>
      let warned := PushLog env job (RemoveWarning e) (fst removed) in
      runStep env job step repoPath w =
      mkRes (streamed ++ [ContainerWait containerID; ContainerRemove containerID] ++ trace warned)%list
            (world warned)
            match out warned with Done _ => Done verdict | Fatal f => Fatal f end
  end.
Proof.
  intros Hs Hw removed streamed verdict.
  rewrite (runStep_streamed _ _ _ _ _ _ _ _ Hs). cbv zeta. fold streamed.
  rewrite bind_done with (a := (code, @None error))
    by (rewrite waitForContainer_eq, Hw; reflexivity).
  cbn [out snd fst trace world]. rewrite waitForContainer_eq. cbn [world trace].
  rewrite bind_call. cbn [out trace world]. fold removed.
  destruct (snd removed) as [e|].
  - unfold bind. destruct (out (PushLog env job (RemoveWarning e) (fst removed))) as [[]|f];
      cbn [trace world out].
    + unfold verdict. destruct (negb (code =? 0)%Z); cbn [trace world out];
        rewrite app_nil_r; reflexivity.
    + reflexivity.
  - unfold bind. cbn [trace world out]. unfold verdict.
    destruct (negb (code =? 0)%Z); reflexivity.
Qed.

End Lifecycle.

Lemma runStep_nil_lifecycle W (env : Env W) job step repoPath w :
  returns (runStep env job step repoPath) w None ->
  exists containerID,
    lifecycle (trace (runStep env job step repoPath w)) =
    [ContainerCreate (container_of step) (mkHostConfig [repoPath ++ ":/app"]);
     ContainerStart containerID; ContainerLogs containerID;
     ContainerWait containerID; ContainerRemove containerID].
Proof.
  unfold returns. intros H.
  assert (He := ensureImage_offstage W env (Image step) w).
  unfold runStep in H. rewrite bind_mark in H. cbn [out] in H.
  destruct (out (ensureImage env (Image step) w)) as [[e|]|e] eqn:E1;
    [rewrite (bind_done _ _ _ _ _ E1) in H; discriminate H | |
     rewrite (bind_fatal _ _ _ _ _ E1) in H; discriminate H].
  rewrite (bind_done _ _ _ _ _ E1) in H. cbn [out] in H.
  set (w1 := world (ensureImage env (Image step) w)) in *.
  destruct (out (createAndStartContainer env step repoPath w1)) as [[id|e]|e] eqn:E2;
    [| rewrite (bind_done _ _ _ _ _ E2) in H; discriminate H
     | rewrite (bind_fatal _ _ _ _ _ E2) in H; discriminate H].
  rewrite (bind_done _ _ _ _ _ E2) in H. cbn [out] in H.
  set (w2 := world (createAndStartContainer env step repoPath w1)) in *.
  destruct (out (streamLogs env job id w2)) as [[e|]|e] eqn:E3;
    [rewrite (bind_done _ _ _ _ _ E3) in H; discriminate H | |
     rewrite (bind_fatal _ _ _ _ _ E3) in H; discriminate H].
  rewrite (bind_done _ _ _ _ _ E3) in H. cbn [out] in H.
  set (w3 := world (streamLogs env job id w2)) in *.
  assert (Hs : step_streamed env job step repoPath w id w3).
  { unfold step_streamed, returns, after. auto. }
  exists id.
  destruct (snd (container_wait env id w3)) as [err|code] eqn:E4.
  { rewrite bind_done with (a := ((-1)%Z, Some err)) in H
      by (rewrite waitForContainer_eq, E4; reflexivity).
    discriminate H. }
  assert (Hw := runStep_waited W env job step repoPath w id w3 code Hs E4).
  cbv zeta in Hw.
  assert (L : forall tail,
            lifecycle tail = [] ->
            lifecycle
              ((EnterRunStep step repoPath :: trace (ensureImage env (Image step) w)
                ++ trace (createAndStartContainer env step repoPath w1)
                ++ trace (streamLogs env job id w2))
               ++ [ContainerWait id; ContainerRemove id] ++ tail) =
            [ContainerCreate (container_of step) (mkHostConfig [repoPath ++ ":/app"]);
             ContainerStart id; ContainerLogs id; ContainerWait id; ContainerRemove id]).
  { intros tail Ht.
    assert (P1 : pick lifecycle_of (trace (ensureImage env (Image step) w)) = [])
      by exact (offstage_lifecycle _ He).
    assert (P3 : pick lifecycle_of (trace (streamLogs env job id w2)) = [ContainerLogs id])
      by exact (streamLogs_lifecycle W env job id w2).
    assert (P4 : pick lifecycle_of tail = []) by exact Ht.
    unfold lifecycle. cbn [app pick lifecycle_of]. rewrite !pick_app.
    rewrite P1, (createAndStartContainer_started W env _ _ _ _ E2), P3.
    cbn [pick lifecycle_of app]. rewrite P4. reflexivity. }
  unfold after in Hw. fold w1 w2 in Hw.
  destruct (snd (container_remove env id (fst (container_wait env id w3)))) as [e|].
  - rewrite Hw. cbn [trace]. apply L. apply offstage_lifecycle. apply PushLog_offstage.
  - rewrite Hw. cbn [trace]. rewrite <- (app_nil_r [ContainerWait id; ContainerRemove id]).
    apply L. reflexivity.
Qed.

(** X2. A step that passes has been through one whole container: when
    [runStep] returns nil, the calls it made on containers are, in this
    order, the creation of the step's container with the working
    directory bound at [/app], its start, the opening of its logs, the
    wait, and the removal, all on the same container. *)
Theorem runStep_nil_means_whole_lifecycle W (env : Env W) job step repoPath w :
  returns (runStep env job step repoPath) w None ->
  exists containerID,
    lifecycle (trace (runStep env job step repoPath w)) =
    whole_lifecycle repoPath (step, containerID).
Proof. exact (runStep_nil_lifecycle W env job step repoPath w). Qed.

Lemma runStep_nil_means_whole_lifecycle_witness :
  exists containerID,
    lifecycle (trace (runStep (lab (Ok "steps: []") NoDocument) lab_job
                        (mkStep "build" "alpine" "make") "/src" 0%nat)) =
    [ContainerCreate (container_of (mkStep "build" "alpine" "make")) (mkHostConfig ["/src:/app"]);
     ContainerStart containerID; ContainerLogs containerID;
     ContainerWait containerID; ContainerRemove containerID].
Proof.
  apply (runStep_nil_means_whole_lifecycle nat (lab (Ok "steps: []") NoDocument) lab_job
           (mkStep "build" "alpine" "make") "/src" 0%nat).
  reflexivity.
Defined.

(** X3. When the image of a step cannot be ensured, [runStep] returns
    "failed to ensure image: ..." with the cause, and has made no call on
    any container: nothing was created. *)
Theorem runStep_image_failure_creates_nothing W (env : Env W) job step repoPath w e :
  returns (ensureImage env (Image step)) w (Some e) ->
  returns (runStep env job step repoPath) w (Some ("failed to ensure image: " ++ e)) /\
  lifecycle (trace (runStep env job step repoPath w)) = [].
Proof.
  unfold returns. intros H. unfold runStep. rewrite bind_mark.
  rewrite (bind_done _ _ _ _ _ H). cbn [out trace]. split; [reflexivity|].
  unfold lifecycle. cbn [pick lifecycle_of]. rewrite pick_app. cbn [pick].
  rewrite app_nil_r. apply offstage_lifecycle. apply ensureImage_offstage.
Qed.

Lemma runStep_image_failure_creates_nothing_witness :
  returns (runStep (lab (Ok "steps: []") NoDocument) lab_job
             (mkStep "build" EmptyString "make") "/src") 0%nat
    (Some "failed to ensure image: invalid reference format") /\
  lifecycle (trace (runStep (lab (Ok "steps: []") NoDocument) lab_job
                      (mkStep "build" EmptyString "make") "/src" 0%nat)) = [].
Proof.
  apply (runStep_image_failure_creates_nothing nat (lab (Ok "steps: []") NoDocument) lab_job
           (mkStep "build" EmptyString "make") "/src" 0%nat "invalid reference format").
  reflexivity.
Defined.

(** X4. When the container of a step cannot be created, or is created
    and cannot be started, [runStep] returns "failed to create and start
    container: ..." with the cause.  In the second case the container
    that was created is left behind: the calls on containers are its
    creation and the start, and no removal. *)
Theorem runStep_start_failure_leaves_container W (env : Env W) job step repoPath w :
  returns (ensureImage env (Image step)) w None ->
  let w1 := after (ensureImage env (Image step)) w in
  let made := container_create env (container_of step) (mkHostConfig [repoPath ++ ":/app"]) w1 in
  (forall e, snd made = Err e ->
     returns (runStep env job step repoPath) w
       (Some ("failed to create and start container: " ++ e)) /\
     lifecycle (trace (runStep env job step repoPath w)) =
     [ContainerCreate (container_of step) (mkHostConfig [repoPath ++ ":/app"])]) /\
  (forall containerID e,
     snd made = Ok containerID ->
     snd (container_start env containerID (fst made)) = Some e ->
     returns (runStep env job step repoPath) w
       (Some ("failed to create and start container: " ++ e)) /\
     lifecycle (trace (runStep env job step repoPath w)) =
     [ContainerCreate (container_of step) (mkHostConfig [repoPath ++ ":/app"]);
      ContainerStart containerID]).
Proof.
  intros H w1 made. unfold returns, after in *.
  assert (He : pick lifecycle_of (trace (ensureImage env (Image step) w)) = [])
    by exact (offstage_lifecycle _ (ensureImage_offstage W env (Image step) w)).
  assert (Hc := createAndStartContainer_eq W env step repoPath
                  (world (ensureImage env (Image step) w))).
  cbv zeta in Hc. fold w1 in Hc. fold made in Hc.
  split.
  - intros e Hm. rewrite Hm in Hc. unfold runStep. rewrite bind_mark.
    rewrite (bind_done _ _ _ _ _ H). cbn [out trace world]. fold w1.
    rewrite bind_done with (a := @Err string e) by (rewrite Hc; reflexivity).
    rewrite Hc. cbn [out trace world]. split; [reflexivity|].
    unfold lifecycle. cbn [pick lifecycle_of]. rewrite pick_app, He. reflexivity.
  - intros id e Hm Hst. rewrite Hm, Hst in Hc. unfold runStep. rewrite bind_mark.
    rewrite (bind_done _ _ _ _ _ H). cbn [out trace world]. fold w1.
    rewrite bind_done with (a := @Err string e) by (rewrite Hc; reflexivity).
    rewrite Hc. cbn [out trace world]. split; [reflexivity|].
    unfold lifecycle. cbn [pick lifecycle_of]. rewrite pick_app, He. reflexivity.
Qed.

Lemma runStep_start_failure_leaves_container_witness :
  (returns (runStep (lab_faulty (Ok "steps: []") NoDocument) lab_job
              (mkStep "build" "scratch" "make") "/src") 0%nat
     (Some "failed to create and start container: No command specified") /\
   lifecycle (trace (runStep (lab_faulty (Ok "steps: []") NoDocument) lab_job
                       (mkStep "build" "scratch" "make") "/src" 0%nat)) =
   [ContainerCreate (container_of (mkStep "build" "scratch" "make")) (mkHostConfig ["/src:/app"])]) /\
  (returns (runStep (lab_faulty (Ok "steps: []") NoDocument) lab_job
              (mkStep "build" "alpine" "stuck") "/src") 0%nat
     (Some "failed to create and start container: OCI runtime create failed") /\
   lifecycle (trace (runStep (lab_faulty (Ok "steps: []") NoDocument) lab_job
                       (mkStep "build" "alpine" "stuck") "/src" 0%nat)) =
   [ContainerCreate (container_of (mkStep "build" "alpine" "stuck")) (mkHostConfig ["/src:/app"]);
    ContainerStart "stuck"]).
Proof.
  split.
  - apply (proj1 (runStep_start_failure_leaves_container nat
             (lab_faulty (Ok "steps: []") NoDocument) lab_job
             (mkStep "build" "scratch" "make") "/src" 0%nat eq_refl)).
    reflexivity.
  - apply (proj2 (runStep_start_failure_leaves_container nat
             (lab_faulty (Ok "steps: []") NoDocument) lab_job
             (mkStep "build" "alpine" "stuck") "/src" 0%nat eq_refl)); reflexivity.
Defined.

(** X5. A removal that fails only adds a warning.  After the output of
    a container has been streamed and the wait has delivered its exit
    code, [runStep] ends with the wait and the removal; when the removal
    fails it appends the one line "Warning: Failed to remove container:
    ..." and returns exactly what it returns when the removal succeeds:
    nil for exit code 0, the exit-code error otherwise. *)
Theorem runStep_removal_failure_only_warns W (env : Env W) job step repoPath w containerID w3 code :
  step_streamed env job step repoPath w containerID w3 ->
  snd (container_wait env containerID w3) = FromStatusCh code ->
  let removed := container_remove env containerID (fst (container_wait env containerID w3)) in
  let streamed :=
    (EnterRunStep step repoPath :: trace (ensureImage env (Image step) w)
     ++ trace (createAndStartContainer env step repoPath (after (ensureImage env (Image step)) w))
     ++ trace (streamLogs env job containerID
                 (after (createAndStartContainer env step repoPath)
                    (after (ensureImage env (Image step)) w))))%list in
  let verdict := if (code =? 0)%Z
                 then None else Some ("step failed with status code: " ++ fmt_d code) in
  (snd removed = None ->
     returns (runStep env job step repoPath) w verdict /\
     trace (runStep env job step repoPath w) =
     (streamed ++ [ContainerWait containerID; ContainerRemove containerID])%list) /\
  (forall e, snd removed = Some e ->
     returns (PushLog env job (RemoveWarning e)) (fst removed) tt ->
     returns (runStep env job step repoPath) w verdict /\
     trace (runStep env job step repoPath w) =
     (streamed ++ [ContainerWait containerID; ContainerRemove containerID;
                   DbInsertLog (Id job) (RemoveWarning e);
                   Println ("Warning: Failed to remove container: " ++ e)])%list).
Proof.
  intros Hs Hw removed streamed verdict.
  assert (H := runStep_waited W env job step repoPath w containerID w3 code Hs Hw).
  cbv zeta in H. fold removed in H. fold streamed in H.
  assert (V : (if negb (code =? 0)%Z
               then Some ("step failed with status code: " ++ fmt_d code) else None) = verdict).
  { unfold verdict. destruct (code =? 0)%Z; reflexivity. }
  rewrite V in H. split.
  - intros Hr. rewrite Hr in H. unfold returns. rewrite H. split; reflexivity.
  - intros e Hr Hp. rewrite Hr in H. unfold returns in *. rewrite H. cbn [out trace].
    rewrite Hp, (PushLog_trace _ _ _ _ _ Hp). split; reflexivity.
Qed.

Lemma runStep_removal_failure_only_warns_witness :
  returns (runStep (lab (Ok "steps: []") NoDocument) lab_job
             (mkStep "build" "alpine" "sticky") "/src") 0%nat None /\
  stored_lines (trace (runStep (lab (Ok "steps: []") NoDocument) lab_job
                         (mkStep "build" "alpine" "sticky") "/src" 0%nat)) =
  [(7%N, ContainerOutput "+ sticky"); (7%N, RemoveWarning "removal in progress")].
Proof.
  destruct (runStep_removal_failure_only_warns nat (lab (Ok "steps: []") NoDocument) lab_job
              (mkStep "build" "alpine" "sticky") "/src" 0%nat "sticky" 5%nat 0%Z) as (_ & H).
  - unfold step_streamed, returns, after. repeat split; reflexivity.
  - reflexivity.
  - destruct (H "removal in progress" eq_refl eq_refl) as (R & T).
    split; [exact R | rewrite T; reflexivity].
Defined.

(** X6. Where a started container is left behind.  When the log stream
    of a started container breaks, [runStep] returns "failed to stream
    logs: ..." and its calls on containers stop at the opening of the
    logs; when the wait fails, it returns "failed to wait for container:
    ..." and they stop at the wait.  In both cases the container is
    neither waited out nor removed. *)
Theorem runStep_stream_or_wait_failure_stops W (env : Env W) job step repoPath w containerID e :
  returns (ensureImage env (Image step)) w None ->
  returns (createAndStartContainer env step repoPath) (after (ensureImage env (Image step)) w)
    (Ok containerID) ->
  let w2 := after (createAndStartContainer env step repoPath)
              (after (ensureImage env (Image step)) w) in
  let w3 := after (streamLogs env job containerID) w2 in
  let created := ContainerCreate (container_of step) (mkHostConfig [repoPath ++ ":/app"]) in
  (returns (streamLogs env job containerID) w2 (Some e) ->
   returns (runStep env job step repoPath) w (Some ("failed to stream logs: " ++ e)) /\
   lifecycle (trace (runStep env job step repoPath w)) =
   [created; ContainerStart containerID; ContainerLogs containerID]) /\
  (returns (streamLogs env job containerID) w2 None ->
   snd (container_wait env containerID w3) = FromErrCh e ->
   returns (runStep env job step repoPath) w (Some ("failed to wait for container: " ++ e)) /\
   lifecycle (trace (runStep env job step repoPath w)) =
   [created; ContainerStart containerID; ContainerLogs containerID; ContainerWait containerID]).
Proof.
  intros H1 H2 w2 w3 created. unfold returns, after in *.
  assert (P1 : pick lifecycle_of (trace (ensureImage env (Image step) w)) = [])
    by exact (offstage_lifecycle _ (ensureImage_offstage W env (Image step) w)).
  assert (P2 := createAndStartContainer_started W env _ _ _ _ H2).
  assert (P3 : pick lifecycle_of (trace (streamLogs env job containerID w2)) =
               [ContainerLogs containerID])
    by exact (streamLogs_lifecycle W env job containerID w2).
  split.
  - intros H3. unfold runStep. rewrite bind_mark.
    rewrite (bind_done _ _ _ _ _ H1); cbn [trace world out].
    rewrite (bind_done _ _ _ _ _ H2); cbn [trace world out].
    rewrite (bind_done _ _ _ _ _ H3); cbn [trace world out].
    split; [reflexivity|]. unfold lifecycle. cbn [pick lifecycle_of].
    rewrite !pick_app, P1, P2. fold w2. rewrite P3. reflexivity.
  - intros H3 H4. unfold runStep. rewrite bind_mark.
    rewrite (bind_done _ _ _ _ _ H1); cbn [trace world out].
    rewrite (bind_done _ _ _ _ _ H2); cbn [trace world out].
    rewrite (bind_done _ _ _ _ _ H3); cbn [trace world out].
    rewrite bind_done with (a := ((-1)%Z, Some e))
      by (rewrite waitForContainer_eq; fold w2; fold w3; rewrite H4; reflexivity).
    cbn [trace world out snd]. rewrite waitForContainer_eq. cbn [trace].
    split; [reflexivity|]. unfold lifecycle. cbn [pick lifecycle_of].
    rewrite !pick_app, P1, P2. fold w2. rewrite P3. reflexivity.
Qed.

Lemma runStep_stream_or_wait_failure_stops_witness :
  lifecycle (trace (runStep (lab (Ok "steps: []") NoDocument) lab_job
                      (mkStep "build" "alpine" "flood") "/src" 0%nat)) =
  [ContainerCreate (container_of (mkStep "build" "alpine" "flood")) (mkHostConfig ["/src:/app"]);
   ContainerStart "flood"; ContainerLogs "flood"] /\
  lifecycle (trace (runStep (lab (Ok "steps: []") NoDocument) lab_job
                      (mkStep "build" "alpine" "hang") "/src" 0%nat)) =
  [ContainerCreate (container_of (mkStep "build" "alpine" "hang")) (mkHostConfig ["/src:/app"]);
   ContainerStart "hang"; ContainerLogs "hang"; ContainerWait "hang"].
Proof.
  split.
  - apply (proj1 (runStep_stream_or_wait_failure_stops nat (lab (Ok "steps: []") NoDocument)
             lab_job (mkStep "build" "alpine" "flood") "/src" 0%nat "flood"
             "bufio.Scanner: token too long" eq_refl eq_refl)).
    reflexivity.
  - apply (proj2 (runStep_stream_or_wait_failure_stops nat (lab (Ok "steps: []") NoDocument)
             lab_job (mkStep "build" "alpine" "hang") "/src" 0%nat "hang"
             "context canceled" eq_refl eq_refl)); reflexivity.
Defined.

(** ** Runs that stop before the steps *)

Lemma cloneRepository_eq W (env : Env W) job w :
  let cloned := git_clone env (Branch job) (ProjectRepo (JobProject job)) (repoPath_of job) w in
  let call := GitClone (Branch job) (ProjectRepo (JobProject job)) (repoPath_of job) in
  cloneRepository env job w =
  match snd (snd cloned) with
  | Some e =>
      mkRes [call] (fst cloned)
            (Done (Err ("git clone error: " ++ e ++ ", output: " ++ fst (snd cloned))))
  | None =>
      let pushed := PushLog env job (CloneOutput (fst (snd cloned))) (fst cloned) in
      mkRes (call :: trace pushed) (world pushed)
            match out pushed with Done _ => Done (Ok (repoPath_of job)) | Fatal f => Fatal f end
  end.
Proof.
  cbv zeta. unfold cloneRepository. cbv zeta. rewrite bind_call.
  destruct (snd (snd (git_clone env _ _ _ w))) as [e|]; [reflexivity|].
  unfold bind. destruct (out (PushLog env job _ _)) as [[]|f]; cbn [trace world out];
    [rewrite app_nil_r|]; reflexivity.
Qed.

Lemma loadConfig_trace W (env : Env W) repoPath w :
  trace (loadConfig env repoPath w) = [ReadFile (filepath_Join env repoPath "duck-ci.yml")].
Proof.
  unfold loadConfig. cbv zeta. rewrite bind_call. cbn [trace].
  destruct (snd (read_file env _ w)) as [data|e]; [|reflexivity].
  destruct (Unmarshal _ _ _ _) as [config [err|]]; reflexivity.
Qed.

(** X7. A clone that fails ends the run at once.  When [git clone]
    fails, the run that returns has recorded only: the line announcing
    the job, the clone, the line "Failed to clone repository: git clone
    error: ..., output: ..." carrying the error and the output of git,
    and the status update to -1.  The manifest is not read, no Docker
    client is created, no container is touched, and the output of git is
    not logged as a line of its own. *)
Theorem Run_clone_failure_stops_there W (env : Env W) job w e :
  let start := PushLog env job (StartingJob (ProjectName (JobProject job))) in
  let cloned := git_clone env (Branch job) (ProjectRepo (JobProject job)) (repoPath_of job)
                  (after start w) in
  let reason := "git clone error: " ++ e ++ ", output: " ++ fst (snd cloned) in
  returns start w tt ->
  snd (snd cloned) = Some e ->
  returns (Run env job) w tt ->
  trace (Run env job w) =
  ([DbInsertLog (Id job) (StartingJob (ProjectName (JobProject job)));
    Println (render (StartingJob (ProjectName (JobProject job))));
    GitClone (Branch job) (ProjectRepo (JobProject job)) (repoPath_of job)]
   ++ closing job (CloneFailed reason) (-1))%list.
Proof.
  intros start cloned reason H0 Hc Hret.
  assert (Ec := cloneRepository_eq W env job (after start w)). cbv zeta in Ec.
  fold cloned in Ec. rewrite Hc in Ec. fold reason in Ec.
  assert (H1 : returns (cloneRepository env job) (after start w) (Err reason))
    by (unfold returns; rewrite Ec; reflexivity).
  unfold returns, after, start in *.
  assert (Et := Hret). unfold Run in Et |- *.
  rewrite (bind_done _ _ _ _ _ H0) in Et |- *; cbn [trace world out] in Et |- *.
  rewrite (bind_done _ _ _ _ _ H1) in Et |- *; cbn [trace world out] in Et |- *.
  rewrite (final_trace _ _ _ _ _ _ Et), (PushLog_trace _ _ _ _ _ H0), Ec. reflexivity.
Qed.

Lemma Run_clone_failure_stops_there_witness :
  let gone := mkJob 9 "main" "-1" (mkProject 2 "gone" "https://example.org/gone.git") in
  trace (Run (lab (Ok "steps: []") NoDocument) gone 0%nat) =
  [DbInsertLog 9 (StartingJob "gone"); Println "Starting job for project: gone";
   GitClone "main" "https://example.org/gone.git" "/tmp/duck-ci/gone-task-9";
   DbInsertLog 9
     (CloneFailed "git clone error: exit status 128, output: fatal: repository not found");
   Println "Failed to clone repository: git clone error: exit status 128, output: fatal: repository not found";
   DbUpdateStatus 9 (-1)].
Proof.
  intros gone.
  apply (Run_clone_failure_stops_there nat (lab (Ok "steps: []") NoDocument) gone 0%nat
           "exit status 128"); reflexivity.
Defined.

(** X8. A manifest that does not load, or a Docker client that cannot be
    created, ends the run before any step.  After a successful clone the
    run that returns has recorded the announcement, the clone and its
    output as one log line, the one read of [duck-ci.yml] in the cloned
    directory, then, if the manifest does not load, "Failed to load
    configuration: ..." and the update to -1 without ever creating a
    Docker client; and if it loads but the client cannot be created, the
    client creation, "Failed to create Docker client: ..." and the
    update to -1. *)
Theorem Run_config_or_client_failure_stops_there W (env : Env W) job w :
  let start := PushLog env job (StartingJob (ProjectName (JobProject job))) in
  let w1 := after start w in
  let w2 := after (cloneRepository env job) w1 in
  let path := repoPath_of job in
  let out_git := fst (snd (git_clone env (Branch job) (ProjectRepo (JobProject job)) path w1)) in
  let before :=
    [DbInsertLog (Id job) (StartingJob (ProjectName (JobProject job)));
     Println (render (StartingJob (ProjectName (JobProject job))));
     GitClone (Branch job) (ProjectRepo (JobProject job)) path;
     DbInsertLog (Id job) (CloneOutput out_git); Println out_git;
     ReadFile (filepath_Join env path "duck-ci.yml")] in
  returns start w tt ->
  returns (cloneRepository env job) w1 (Ok path) ->
  returns (Run env job) w tt ->
  (forall err, returns (loadConfig env path) w2 (Err err) ->
     trace (Run env job w) = (before ++ closing job (LoadConfigFailed err) (-1))%list) /\
  (forall config err, returns (loadConfig env path) w2 (Ok config) ->
     snd (docker_new_client env (after (loadConfig env path) w2)) = Some err ->
     trace (Run env job w) =
     (before ++ NewClient :: closing job (DockerClientFailed err) (-1))%list).
Proof.
  intros start w1 w2 path out_git before H0 H1 Hret.
  assert (Tc : trace (cloneRepository env job w1) =
               [GitClone (Branch job) (ProjectRepo (JobProject job)) path;
                DbInsertLog (Id job) (CloneOutput out_git); Println out_git]).
  { assert (Ec := cloneRepository_eq W env job w1). cbv zeta in Ec.
    unfold returns in H1. rewrite Ec in H1 |- *.
    destruct (snd (snd (git_clone env _ _ _ w1))) as [e|]; cbn [out trace] in *;
      [discriminate H1|].
    fold path out_git in H1 |- *.
    destruct (out (PushLog env job (CloneOutput out_git) _)) as [[]|f] eqn:Ep;
      [|discriminate H1].
    rewrite (PushLog_trace _ _ _ _ _ Ep). reflexivity. }
  unfold returns, after in *. subst w2 w1. unfold start in *.
  split.
  - intros err H2.
    assert (Et := Hret). unfold Run in Et |- *.
    rewrite (bind_done _ _ _ _ _ H0) in Et |- *; cbn [trace world out] in Et |- *.
    rewrite (bind_done _ _ _ _ _ H1) in Et |- *; cbn [trace world out] in Et |- *.
    rewrite (bind_done _ _ _ _ _ H2) in Et |- *; cbn [trace world out] in Et |- *.
    rewrite (final_trace _ _ _ _ _ _ Et), (PushLog_trace _ _ _ _ _ H0), Tc, loadConfig_trace.
    reflexivity.
  - intros config err H2 H3.
    assert (Et := Hret). unfold Run in Et |- *.
    rewrite (bind_done _ _ _ _ _ H0) in Et |- *; cbn [trace world out] in Et |- *.
    rewrite (bind_done _ _ _ _ _ H1) in Et |- *; cbn [trace world out] in Et |- *.
    rewrite (bind_done _ _ _ _ _ H2) in Et |- *; cbn [trace world out] in Et |- *.
    rewrite bind_call in Et |- *; cbn [trace world out] in Et |- *.
    rewrite H3 in Et |- *.
    rewrite (final_trace _ _ _ _ _ _ Et), (PushLog_trace _ _ _ _ _ H0), Tc, loadConfig_trace.
    reflexivity.
Qed.

Lemma Run_config_or_client_failure_stops_there_witness :
  trace (Run (lab (Err "open duck-ci.yml: no such file or directory") NoDocument) lab_job 0%nat) =
  [DbInsertLog 7 (StartingJob "demo"); Println "Starting job for project: demo";
   GitClone "main" "https://example.org/demo.git" "/tmp/duck-ci/demo-task-7";
   DbInsertLog 7 (CloneOutput "Cloning into 'demo'..."); Println "Cloning into 'demo'...";
   ReadFile "/tmp/duck-ci/demo-task-7/duck-ci.yml";
   DbInsertLog 7
     (LoadConfigFailed "failed to read config file: open duck-ci.yml: no such file or directory");
   Println "Failed to load configuration: failed to read config file: open duck-ci.yml: no such file or directory";
   DbUpdateStatus 7 (-1)].
Proof.
  apply (proj1 (Run_config_or_client_failure_stops_there nat
           (lab (Err "open duck-ci.yml: no such file or directory") NoDocument) lab_job 0%nat
           eq_refl eq_refl eq_refl)).
  reflexivity.
Defined.

(** ** What a step, and the start of a run, can record *)

Ltac alphabet_all :=
  repeat first [apply emits_ret | apply emits_fatal | exact I | reflexivity | emits_step].

Section Alphabets.

Variable W : Type.
Variable env : Env W.
Variable job : Job.

Lemma PushLog_emits (P : Event -> Prop) l :
  P (DbInsertLog (Id job) l) -> P (Println (render l)) -> emits P (PushLog env job l).
Proof.
  intros H1 H2. unfold PushLog, inertLog.
  repeat first [apply emits_ret | apply emits_fatal | assumption | emits_step].
Qed.

Lemma push_lines_emits (P : Event -> Prop) lines :
  (forall line, P (DbInsertLog (Id job) (ContainerOutput line))) ->
  (forall s, P (Println s)) ->
  emits P (push_lines env job lines).
Proof.
  intros H1 H2. induction lines; cbn [push_lines]; [apply emits_ret|].
  apply emits_bind; [apply PushLog_emits; auto | intros _; exact IHlines].
Qed.

Lemma runStep_alphabet step repoPath : emits (step_event job) (runStep env job step repoPath).
Proof.
  unfold runStep, ensureImage, createAndStartContainer, streamLogs, waitForContainer.
  cbv zeta.
  repeat first [apply emits_ret | apply emits_fatal | exact I
               | apply push_lines_emits; [reflexivity | intros; exact I]
               | apply PushLog_emits; [reflexivity | exact I]
               | emits_step].
Qed.

Lemma step_event_pick {A} (f : Event -> option A) t :
  (forall ev, step_event job ev -> f ev = None) ->
  Forall (step_event job) t -> pick f t = [].
Proof.
  intros H Ht. apply pick_none. eapply Forall_impl; [exact H | exact Ht].
Qed.

Lemma step_event_uncompleted ev : step_event job ev -> completed_of ev = None.
Proof. destruct ev as [| | ? []| | | | | | | | | | | | | | | |]; cbn; trivial; contradiction. Qed.

(** The record of a run that reaches the loop: prelude, then loop. *)
Lemma Run_prelude w repoPath config w' :
  reaches_loop env job w repoPath config w' ->
  exists t0,
    Forall (prelude_event job) t0 /\
    Run env job w =
    mkRes (t0 ++ trace (run_steps env job repoPath 0 (Steps config) w'))%list
          (world (run_steps env job repoPath 0 (Steps config) w'))
          (out (run_steps env job repoPath 0 (Steps config) w')).
Proof.
  intros (H0 & H1 & H2 & H3 & ->). unfold returns, after in *.
  exists (trace (PushLog env job (StartingJob (ProjectName (JobProject job))) w)
          ++ trace (cloneRepository env job
                      (world (PushLog env job (StartingJob (ProjectName (JobProject job))) w)))
          ++ trace (loadConfig env repoPath
                      (world (cloneRepository env job
                         (world (PushLog env job (StartingJob (ProjectName (JobProject job))) w)))))
          ++ [NewClient])%list.
  split.
  - apply Forall_app; split; [apply PushLog_emits; [reflexivity | exact I]|].
    apply Forall_app; split.
    { match goal with |- Forall _ (trace (?m ?x)) => generalize x; intros w1 end.
      emits_goal. unfold cloneRepository. cbv zeta.
      repeat first [apply emits_ret | exact I | apply PushLog_emits; [reflexivity | exact I]
                   | emits_step]. }
    apply Forall_app; split; [rewrite loadConfig_trace|]; repeat constructor.
  - unfold Run.
    rewrite (bind_done _ _ _ _ _ H0); cbn [trace world out].
    rewrite (bind_done _ _ _ _ _ H1); cbn [trace world out].
    rewrite (bind_done _ _ _ _ _ H2); cbn [trace world out].
    rewrite bind_call; cbn [trace world out]. rewrite H3. cbn [app].
    rewrite <- !app_assoc. reflexivity.
Qed.

Lemma prelude_uncompleted t : Forall (prelude_event job) t -> completed_steps t = [].
Proof.
  intros H. apply pick_none. eapply Forall_impl; [|exact H].
  intros ev. destruct ev as [| | ? []| | | | | | | | | | | | | | | |]; cbn; trivial; contradiction.
Qed.

(** The "completed" lines of a loop whose first steps pass. *)
Lemma run_steps_pass_completed repoPath rest pre :
  forall i w w',
  steps_pass env job repoPath i pre w w' ->
  completed_steps (trace (run_steps env job repoPath i (pre ++ rest) w)) =
  (numbered i pre
   ++ completed_steps (trace (run_steps env job repoPath (i + Z.of_nat (length pre)) rest w')))%list.
Proof.
  induction pre as [|step pre IH]; intros i w w' H; inversion H; subst.
  - cbn [app length Z.of_nat numbered]. rewrite Z.add_0_r. reflexivity.
  - match goal with Hp : step_passes _ _ _ _ _ _ _ |- _ =>
      destruct Hp as (H1 & H2 & H3 & ->) end.
    match goal with Hs : steps_pass _ _ _ _ _ _ _ |- _ => assert (E := IH _ _ _ Hs) end.
    unfold returns, after in *. cbn [app run_steps].
    rewrite (bind_done _ _ _ _ _ H1); cbn [trace world out].
    rewrite (bind_done _ _ _ _ _ H2); cbn [trace world out].
    rewrite (bind_done _ _ _ _ _ H3); cbn [trace world out].
    unfold completed_steps in *. rewrite !pick_app, E.
    rewrite (PushLog_trace _ _ _ _ _ H1), (PushLog_trace _ _ _ _ _ H3).
    rewrite (step_event_pick completed_of _ step_event_uncompleted
               (runStep_alphabet step repoPath _)).
    cbn [pick completed_of app numbered].
    replace (i + Z.of_nat (length (step :: pre)))%Z with (i + 1 + Z.of_nat (length pre))%Z
      by (cbn [length]; lia).
    reflexivity.
Qed.

End Alphabets.

(** ** Runs whose steps pass *)

Section Passing.

Variable W : Type.
Variable env : Env W.
Variable job : Job.

Lemma prelude_offstage t : Forall (prelude_event job) t -> lifecycle t = [].
Proof.
  intros H. apply pick_none. eapply Forall_impl; [|exact H].
  intros ev. destruct ev as [| | ? []| | | | | | | | | | | | | | | |]; cbn; trivial; contradiction.
Qed.

Lemma final_offstage l status w :
  lifecycle (trace ((PushLog env job l ;;; updateJobStatus env job status) w)) = [].
Proof.
  apply offstage_lifecycle. revert w.
  change (emits offstage (PushLog env job l ;;; updateJobStatus env job status)).
  apply emits_bind; [apply PushLog_offstage | intros _].
  unfold updateJobStatus. offstage_all.
Qed.

(** The calls on containers of a loop whose first steps pass. *)
Lemma run_steps_pass_lifecycle repoPath rest pre :
  forall i w w',
  steps_pass env job repoPath i pre w w' ->
  exists ids,
    length ids = length pre /\
    lifecycle (trace (run_steps env job repoPath i (pre ++ rest) w)) =
    (flat_map (whole_lifecycle repoPath) (combine pre ids)
     ++ lifecycle (trace (run_steps env job repoPath (i + Z.of_nat (length pre)) rest w')))%list.
Proof.
  induction pre as [|step pre IH]; intros i w w' H; inversion H; subst.
  - exists []. cbn [app length Z.of_nat combine flat_map]. rewrite Z.add_0_r.
    split; reflexivity.
  - match goal with Hp : step_passes _ _ _ _ _ _ _ |- _ =>
      destruct Hp as (H1 & H2 & H3 & ->) end.
    match goal with Hs : steps_pass _ _ _ _ _ _ _ |- _ =>
      destruct (IH _ _ _ Hs) as (ids & Hl & E) end.
    destruct (runStep_nil_lifecycle W env job step repoPath _ H2) as (id & L).
    unfold returns, after in *. exists (id :: ids). split; [cbn [length]; congruence|].
    cbn [app run_steps].
    rewrite (bind_done _ _ _ _ _ H1); cbn [trace world out].
    rewrite (bind_done _ _ _ _ _ H2); cbn [trace world out].
    rewrite (bind_done _ _ _ _ _ H3); cbn [trace world out].
    unfold lifecycle in *. rewrite !pick_app, E, L.
    rewrite (PushLog_trace _ _ _ _ _ H1), (PushLog_trace _ _ _ _ _ H3).
    cbn [pick lifecycle_of app combine flat_map whole_lifecycle fst snd].
    replace (i + Z.of_nat (length (step :: pre)))%Z with (i + 1 + Z.of_nat (length pre))%Z
      by (cbn [length]; lia).
    reflexivity.
Qed.

End Passing.

(** X9. A run whose steps all pass.  It records one "Starting step n"
    line and one "Step n completed successfully" line per step, numbered
    from 1 in manifest order; the Step Executor is entered once per
    step, in that order; its calls on containers are one whole life per
    step (create, start, logs, wait, remove), each container removed
    before the next is created; and when it returns it ends with "Job
    completed successfully" and the status update to 0. *)
Theorem Run_all_steps_pass W (env : Env W) job w repoPath config w0 w' :
  reaches_loop env job w repoPath config w0 ->
  steps_pass env job repoPath 0 (Steps config) w0 w' ->
  let tr := trace (Run env job w) in
  starting_steps tr = announced 0 (Steps config) /\
  completed_steps tr = numbered 0 (Steps config) /\
  run_step_calls tr = Steps config /\
  (exists ids,
     length ids = length (Steps config) /\
     lifecycle tr = flat_map (whole_lifecycle repoPath) (combine (Steps config) ids)) /\
  (returns (Run env job) w tt -> exists t, tr = (t ++ closing job JobCompleted 0)%list).
Proof.
  intros Hreach Hpass tr.
  destruct (Run_at_loop W env job w repoPath config w0 Hreach) as (t0 & P0 & E0).
  destruct (run_steps_pass W env job repoPath [] (Steps config) _ _ _ Hpass)
    as (T & E & A & C & _).
  rewrite app_nil_r in E. rewrite E in E0. cbn [trace world out run_steps] in E0.
  destruct (plain_picks _ P0) as (A0 & C0 & _).
  assert (Pf : Forall plain
                 (trace ((PushLog env job JobCompleted ;;; updateJobStatus env job 0) w')))
    by (apply final_plain; reflexivity).
  destruct (plain_picks _ Pf) as (Af & Cf & _).
  unfold starting_steps, run_step_calls in *.
  split; [|split; [|split; [|split]]].
  - unfold tr. rewrite E0. cbn [trace]. rewrite !pick_app, A0, A, Af, app_nil_r. reflexivity.
  - destruct (Run_prelude W env job w repoPath config w0 Hreach) as (t1 & P1 & E1).
    unfold tr. rewrite E1. cbn [trace]. unfold completed_steps. rewrite pick_app.
    fold completed_steps. rewrite (prelude_uncompleted _ _ P1).
    rewrite <- (app_nil_r (Steps config)) at 1.
    rewrite (run_steps_pass_completed W env job repoPath [] (Steps config) _ _ _ Hpass).
    cbn [run_steps app]. unfold completed_steps.
    rewrite (pick_none completed_of); [apply app_nil_r|].
    match goal with |- Forall _ (trace (?m ?x)) => generalize x; intros w1 end.
    emits_goal. apply emits_bind; [apply PushLog_emits; reflexivity | intros _].
    unfold updateJobStatus. alphabet_all.
  - unfold tr. rewrite E0. cbn [trace]. rewrite !pick_app, C0, C, Cf, app_nil_r. reflexivity.
  - destruct (Run_prelude W env job w repoPath config w0 Hreach) as (t1 & P1 & E1).
    destruct (run_steps_pass_lifecycle W env job repoPath [] (Steps config) _ _ _ Hpass)
      as (ids & Hl & L).
    exists ids. split; [exact Hl|].
    unfold tr. rewrite E1. cbn [trace]. unfold lifecycle. rewrite pick_app. fold lifecycle.
    rewrite (prelude_offstage _ _ P1). rewrite app_nil_r in L. rewrite L.
    cbn [run_steps app]. rewrite final_offstage. apply app_nil_r.
  - intros Hret. exists (t0 ++ T)%list. unfold tr.
    unfold returns in Hret. rewrite E0 in Hret |- *. cbn [out trace] in *.
    rewrite (final_trace _ _ _ _ _ _ Hret). apply app_assoc.
Qed.

Lemma Run_all_steps_pass_witness :
  let steps := [mkStep "build" "alpine" "make"; mkStep "test" "golang:1" "go test"] in
  let tr := trace (Run (lab (Ok "steps: [...]") (manifest_of steps)) lab_job 0%nat) in
  starting_steps tr = [(1%Z, "build"); (2%Z, "test")] /\
  completed_steps tr = [1%Z; 2%Z] /\
  run_step_calls tr = steps /\
  (exists ids,
     length ids = 2%nat /\
     lifecycle tr = flat_map (whole_lifecycle "/tmp/duck-ci/demo-task-7") (combine steps ids)) /\
  (returns (Run (lab (Ok "steps: [...]") (manifest_of steps)) lab_job) 0%nat tt ->
   exists t, tr = (t ++ closing lab_job JobCompleted 0)%list).
Proof.
  intros steps.
  apply (Run_all_steps_pass nat (lab (Ok "steps: [...]") (manifest_of steps)) lab_job 0%nat
           "/tmp/duck-ci/demo-task-7" (mkConfig steps) 5%nat 25%nat).
  - unfold reaches_loop, returns, after. repeat split; reflexivity.
  - apply steps_pass_cons with (w1 := 14%nat).
    + unfold step_passes, returns, after. repeat split; reflexivity.
    + apply steps_pass_cons with (w1 := 25%nat).
      * unfold step_passes, returns, after. repeat split; reflexivity.
      * apply steps_pass_nil.
Defined.

(** X10. What a failing run leaves of the steps before the failure.  In
    a run that reaches the loop, whose first steps [pre] pass and whose
    next step fails, the "Step n completed successfully" lines are those
    of [pre] and no more; and the calls on containers are one whole life
    per step of [pre], each removed before the next is created, followed
    only by the calls of the failing step: none of the later steps gets
    a container. *)
Theorem Run_failure_after_passes W (env : Env W) job w repoPath config w0 pre step post wk e wf :
  reaches_loop env job w repoPath config w0 ->
  Steps config = (pre ++ step :: post)%list ->
  steps_pass env job repoPath 0 pre w0 wk ->
  step_fails env job repoPath (Z.of_nat (length pre)) step wk e wf ->
  let tr := trace (Run env job w) in
  let failing :=
    runStep env job step repoPath
      (after (PushLog env job (StartingStep (Z.of_nat (length pre) + 1) (Name step))) wk) in
  completed_steps tr = numbered 0 pre /\
  exists ids,
    length ids = length pre /\
    lifecycle tr =
    (flat_map (whole_lifecycle repoPath) (combine pre ids) ++ lifecycle (trace failing))%list.
Proof.
  intros Hreach Hsteps Hpass (H1 & H2 & ->) tr failing.
  destruct (Run_prelude W env job w repoPath config w0 Hreach) as (t1 & P1 & E1).
  assert (Hc := run_steps_pass_completed W env job repoPath (step :: post) pre _ _ _ Hpass).
  destruct (run_steps_pass_lifecycle W env job repoPath (step :: post) pre _ _ _ Hpass)
    as (ids & Hl & L).
  rewrite Z.add_0_l in Hc, L.
  unfold returns, after in *.
  assert (Ek : run_steps env job repoPath (Z.of_nat (length pre)) (step :: post) wk =
               mkRes (trace (PushLog env job (StartingStep (Z.of_nat (length pre) + 1) (Name step)) wk)
                      ++ trace failing
                      ++ trace ((PushLog env job (StepFailed (Z.of_nat (length pre) + 1) e) ;;;
                                 updateJobStatus env job (-1)) (world failing)))%list
                     (world ((PushLog env job (StepFailed (Z.of_nat (length pre) + 1) e) ;;;
                              updateJobStatus env job (-1)) (world failing)))
                     (out ((PushLog env job (StepFailed (Z.of_nat (length pre) + 1) e) ;;;
                            updateJobStatus env job (-1)) (world failing)))).
  { cbn [run_steps].
    rewrite (bind_done _ _ _ _ _ H1); cbn [trace world out].
    rewrite (bind_done _ _ _ _ _ H2); cbn [trace world out]. reflexivity. }
  rewrite Ek in Hc, L. cbn [trace] in Hc, L.
  split.
  - unfold tr. rewrite E1, Hsteps. cbn [trace]. unfold completed_steps in *.
    rewrite pick_app, Hc. fold completed_steps. rewrite (prelude_uncompleted _ _ P1).
    unfold completed_steps. rewrite !pick_app, (PushLog_trace _ _ _ _ _ H1).
    unfold failing.
    rewrite (step_event_pick job completed_of _ (step_event_uncompleted job)
               (runStep_alphabet W env job step repoPath _)).
    rewrite (pick_none completed_of (trace ((PushLog env job _ ;;; updateJobStatus env job _) _))).
    + cbn [pick completed_of app]. rewrite !app_nil_r. reflexivity.
    + match goal with |- Forall _ (trace (?m ?x)) => generalize x; intros w1 end.
      emits_goal.
      apply emits_bind; [apply PushLog_emits; reflexivity | intros _].
      unfold updateJobStatus. alphabet_all.
  - exists ids. split; [exact Hl|].
    unfold tr. rewrite E1, Hsteps. cbn [trace]. unfold lifecycle in *.
    rewrite pick_app, L. fold lifecycle. rewrite (prelude_offstage _ _ P1).
    unfold lifecycle. rewrite !pick_app, (PushLog_trace _ _ _ _ _ H1). fold lifecycle.
    rewrite final_offstage. cbn [pick lifecycle_of app]. rewrite app_nil_r. reflexivity.
Qed.

Lemma Run_failure_after_passes_witness :
  let steps := [mkStep "build" "alpine" "make"; mkStep "test" "golang:1" "exit 3";
                mkStep "deploy" "alpine" "ship"] in
  let tr := trace (Run (lab (Ok "steps: [...]") (manifest_of steps)) lab_job 0%nat) in
  completed_steps tr = [1%Z] /\
  lifecycle tr =
  (whole_lifecycle "/tmp/duck-ci/demo-task-7" (mkStep "build" "alpine" "make", "make")
   ++ whole_lifecycle "/tmp/duck-ci/demo-task-7" (mkStep "test" "golang:1" "exit 3", "exit 3"))%list.
Proof.
  intros steps.
  destruct (Run_failure_after_passes nat (lab (Ok "steps: [...]") (manifest_of steps)) lab_job
              0%nat "/tmp/duck-ci/demo-task-7" (mkConfig steps) 5%nat
              [mkStep "build" "alpine" "make"] (mkStep "test" "golang:1" "exit 3")
              [mkStep "deploy" "alpine" "ship"] 14%nat "step failed with status code: 3" 24%nat)
    as (Hc & _).
  - unfold reaches_loop, returns, after. repeat split; reflexivity.
  - reflexivity.
  - apply steps_pass_cons with (w1 := 14%nat).
    + unfold step_passes, returns, after. repeat split; reflexivity.
    + apply steps_pass_nil.
  - unfold step_fails, returns, after. repeat split; reflexivity.
  - split; [exact Hc | reflexivity].
Defined.

(** ** The creation of a job, and the run it starts *)

(** X11. A job that cannot be created, or cannot be read back, is never
    run.  When the insert fails, [createJob] returns its error after this
    one call; when the row is inserted (with status -1) and reading it
    back under the decimal form of its id fails, [createJob] returns
    that error, and the POST has recorded the insert and the read and
    nothing else: no run will ever write a verdict for the row.  When
    both succeed, the run that follows is the run of the job the
    read-back gave. *)
Theorem TaskView_post_runs_what_was_read_back W (env : Env W) projectId branch w :
  let inserted := db_insert_job env projectId branch (-1) w in
  (forall e, snd inserted = Err e ->
     returns (createJob env projectId branch) w (Err e) /\
     trace (TaskView_post env projectId branch w) = [DbInsertJob projectId branch (-1)]) /\
  (forall id e, snd inserted = Ok id ->
     snd (db_get_job env (fmt_u id) (fst inserted)) = Err e ->
     returns (createJob env projectId branch) w (Err e) /\
     trace (TaskView_post env projectId branch w) =
     [DbInsertJob projectId branch (-1); DbGetJob (fmt_u id)]) /\
  (forall id job, snd inserted = Ok id ->
     snd (db_get_job env (fmt_u id) (fst inserted)) = Ok job ->
     returns (createJob env projectId branch) w (Ok job) /\
     trace (TaskView_post env projectId branch w) =
     DbInsertJob projectId branch (-1) :: DbGetJob (fmt_u id)
       :: trace (Run env job (fst (db_get_job env (fmt_u id) (fst inserted))))).
Proof.
  intros inserted.
  assert (Ec : createJob env projectId branch w =
               match snd inserted with
               | Err e => mkRes [DbInsertJob projectId branch (-1)] (fst inserted) (Done (Err e))
               | Ok id =>
                   mkRes [DbInsertJob projectId branch (-1); DbGetJob (fmt_u id)]
                         (fst (db_get_job env (fmt_u id) (fst inserted)))
                         (Done (snd (db_get_job env (fmt_u id) (fst inserted))))
               end).
  { unfold createJob. rewrite bind_call. fold inserted.
    destruct (snd inserted); reflexivity. }
  unfold TaskView_post, returns. split; [|split].
  - intros e He. rewrite He in Ec.
    assert (Ho : out (createJob env projectId branch w) = Done (Err e))
      by (rewrite Ec; reflexivity).
    split; [exact Ho|]. rewrite (bind_done _ _ _ _ _ Ho), Ec. reflexivity.
  - intros id e Hi Hg. rewrite Hi in Ec.
    assert (Ho : out (createJob env projectId branch w) = Done (Err e))
      by (rewrite Ec; cbn [out]; rewrite Hg; reflexivity).
    split; [exact Ho|]. rewrite (bind_done _ _ _ _ _ Ho), Ec. reflexivity.
  - intros id job Hi Hg. rewrite Hi in Ec.
    assert (Ho : out (createJob env projectId branch w) = Done (Ok job))
      by (rewrite Ec; cbn [out]; rewrite Hg; reflexivity).
    split; [exact Ho|]. rewrite (bind_done _ _ _ _ _ Ho), Ec. reflexivity.
Qed.

Lemma TaskView_post_runs_what_was_read_back_witness :
  let env := lab_faulty (Ok "steps: []") (manifest_of []) in
  trace (TaskView_post env "1" "locked" 0%nat) = [DbInsertJob "1" "locked" (-1)] /\
  trace (TaskView_post env "1" "ghost" 0%nat) = [DbInsertJob "1" "ghost" (-1); DbGetJob "8"] /\
  trace (TaskView_post env "1" "main" 0%nat) =
  DbInsertJob "1" "main" (-1) :: DbGetJob "7" :: trace (Run env lab_job 2%nat).
Proof.
  intros env.
  destruct (TaskView_post_runs_what_was_read_back nat env "1" "locked" 0%nat) as (H1 & _).
  destruct (TaskView_post_runs_what_was_read_back nat env "1" "ghost" 0%nat) as (_ & H2 & _).
  destruct (TaskView_post_runs_what_was_read_back nat env "1" "main" 0%nat) as (_ & _ & H3).
  split; [exact (proj2 (H1 "database is locked" eq_refl))|].
  split; [exact (proj2 (H2 8%N "sql: no rows in result set" eq_refl eq_refl))|].
  exact (proj2 (H3 7%N lab_job eq_refl eq_refl)).
Defined.

(** ** What a run writes, and for whom *)

Section Targets.

Variable W : Type.
Variable env : Env W.
Variable job : Job.

Lemma pick_Forall {A} (f : Event -> option A) (P : Event -> Prop) (Q : A -> Prop) t :
  (forall ev a, P ev -> f ev = Some a -> Q a) ->
  Forall P t -> Forall Q (pick f t).
Proof.
  intros H Ht. induction Ht as [|ev t Hev Ht IH]; cbn [pick]; [constructor|].
  destruct (f ev) as [a|] eqn:E; [|exact IH].
  constructor; [exact (H ev a Hev E) | exact IH].
Qed.

Lemma step_event_targets ev : step_event job ev -> targets job ev.
Proof.
  destruct ev as [| | ? []| | | | | | | | | | | | | | | |]; cbn; intros H;
    try contradiction; trivial.
Qed.

Lemma runStep_targets step repoPath : emits (targets job) (runStep env job step repoPath).
Proof.
  intros w. eapply Forall_impl; [exact step_event_targets|].
  apply runStep_alphabet.
Qed.

Lemma final_targets l status :
  emits (targets job) (PushLog env job l ;;; updateJobStatus env job status).
Proof.
  apply emits_bind; [apply PushLog_emits; [reflexivity | exact I] | intros _].
  unfold updateJobStatus. alphabet_all.
Qed.

Lemma run_steps_targets repoPath steps :
  forall i, emits (targets job) (run_steps env job repoPath i steps).
Proof.
  induction steps as [|step rest IH]; intros i; cbn [run_steps].
  - apply final_targets.
  - apply emits_bind; [apply PushLog_emits; [reflexivity | exact I] | intros _].
    apply emits_bind; [apply runStep_targets | intros [e|]].
    + apply final_targets.
    + apply emits_bind; [apply PushLog_emits; [reflexivity | exact I] | intros _].
      apply IH.
Qed.

Lemma Run_targets : emits (targets job) (Run env job).
Proof.
  unfold Run.
  apply emits_bind; [apply PushLog_emits; [reflexivity | exact I] | intros _].
  apply emits_bind.
  { unfold cloneRepository. cbv zeta.
    repeat first [apply emits_ret | exact I | apply PushLog_emits; [reflexivity | exact I]
                 | emits_step]. }
  intros [repoPath|e]; [|apply final_targets].
  apply emits_bind.
  { intros w. rewrite loadConfig_trace. repeat constructor. }
  intros [config|e]; [|apply final_targets].
  apply emits_bind; [apply emits_call; exact I | intros [e|]].
  - apply final_targets.
  - apply run_steps_targets.
Qed.

End Targets.

(** X12. A run writes for its own job only.  Whatever the environment
    answers, and wherever the run stops, every log line it sends to the
    store is filed under the id of the job it was given, every status
    update is for that id, and it neither creates nor reads a job. *)
Theorem Run_writes_for_its_job_only W (env : Env W) job w :
  Forall (targets job) (trace (Run env job w)).
Proof. apply Run_targets. Qed.

(** X13. What the Step Executor leaves in the store.  [runStep] writes
    no job status; the lines it sends to the log table are filed under
    the job's id and are lines of container output or the removal
    warning, nothing else: the lines that announce, complete or fail a
    step are not its own. *)
Theorem runStep_stores_only_output W (env : Env W) job step repoPath w :
  let tr := trace (runStep env job step repoPath w) in
  status_writes tr = [] /\
  Forall (step_line job) (stored_lines tr).
Proof.
  intros tr. subst tr. split.
  - apply (step_event_pick job status_of); [|apply runStep_alphabet].
    intros ev. destruct ev as [| | ? []| | | | | | | | | | | | | | | |]; cbn; trivial; contradiction.
  - apply (pick_Forall stored_of (step_event job)); [|apply runStep_alphabet].
    intros ev p Hev E. destruct ev; try discriminate E. injection E as <-.
    destruct l; cbn in Hev; try contradiction; split; cbn; trivial.
Qed.

(** ** The server's log and the log table *)

Section Journal.

Variable W : Type.
Variable env : Env W.
Variable job : Job.

Lemma mirrored_app t1 t2 : mirrored t1 -> mirrored t2 -> mirrored (t1 ++ t2).
Proof.
  unfold mirrored, printed, stored_lines. intros H1 H2.
  rewrite !pick_app, map_app, H1, H2. reflexivity.
Qed.

Lemma journal_ret {A} (a : A) : journal (@ret W A a).
Proof. intros w. reflexivity. Qed.

Lemma journal_call {A} ev (h : W -> W * A) : silent ev -> journal (call ev h).
Proof.
  intros (H1 & H2) w. unfold mirrored, printed, stored_lines. cbn [call out trace pick].
  rewrite H1, H2. reflexivity.
Qed.

Lemma journal_mark ev : silent ev -> journal (@mark W ev).
Proof.
  intros (H1 & H2) w. unfold mirrored, printed, stored_lines. cbn [mark out trace pick].
  rewrite H1, H2. reflexivity.
Qed.

Lemma journal_bind {A B} (m : M W A) (f : A -> M W B) :
  journal m -> (forall a, journal (f a)) -> journal (bind m f).
Proof.
  intros Hm Hf w. specialize (Hm w).
  destruct (out (m w)) as [a|e] eqn:E.
  - rewrite (bind_done _ _ _ _ _ E). cbn [out trace].
    specialize (Hf a (world (m w))).
    destruct (out (f a (world (m w)))) as [b|e].
    + apply mirrored_app; assumption.
    + destruct Hf as (t & ev & Et & Hs & Ht).
      exists (trace (m w) ++ t)%list, ev. rewrite Et, app_assoc.
      split; [reflexivity|]. split; [exact Hs|]. apply mirrored_app; assumption.
  - rewrite (bind_fatal _ _ _ _ _ E). cbn [out trace]. exact Hm.
Qed.

Lemma PushLog_journal l : journal (PushLog env job l).
Proof.
  intros w. rewrite PushLog_eq.
  destruct (snd (db_insert_log env (Id job) (render l) w)); cbn [out trace].
  - exists [], (DbInsertLog (Id job) l). repeat split.
  - reflexivity.
Qed.

Lemma updateJobStatus_journal status : journal (updateJobStatus env job status).
Proof.
  intros w. rewrite updateJobStatus_eq. cbn [out trace].
  destruct (snd (db_update_status env (Id job) status w)).
  - exists [], (DbUpdateStatus (Id job) status). repeat split.
  - reflexivity.
Qed.

Lemma push_lines_journal lines : journal (push_lines env job lines).
Proof.
  induction lines; cbn [push_lines]; [apply journal_ret|].
  apply journal_bind; [apply PushLog_journal | intros _; exact IHlines].
Qed.

Lemma runStep_journal step repoPath : journal (runStep env job step repoPath).
Proof.
  unfold runStep, ensureImage, createAndStartContainer, streamLogs, waitForContainer.
  cbv zeta.
  repeat first [apply journal_ret | apply PushLog_journal | apply push_lines_journal
               | apply journal_call; split; reflexivity
               | apply journal_mark; split; reflexivity
               | apply journal_bind; [|intros ?]
               | match goal with
                 | |- journal (match ?x with _ => _ end) => destruct x
                 | |- journal (if ?x then _ else _) => destruct x
                 end].
Qed.

Lemma final_journal l status :
  journal (PushLog env job l ;;; updateJobStatus env job status).
Proof.
  apply journal_bind; [apply PushLog_journal | intros _; apply updateJobStatus_journal].
Qed.

Lemma run_steps_journal repoPath steps :
  forall i, journal (run_steps env job repoPath i steps).
Proof.
  induction steps as [|step rest IH]; intros i; cbn [run_steps].
  - apply final_journal.
  - apply journal_bind; [apply PushLog_journal | intros _].
    apply journal_bind; [apply runStep_journal | intros [e|]].
    + apply final_journal.
    + apply journal_bind; [apply PushLog_journal | intros _; apply IH].
Qed.

Lemma Run_journal : journal (Run env job).
Proof.
  unfold Run.
  apply journal_bind; [apply PushLog_journal | intros _].
  apply journal_bind.
  { unfold cloneRepository. cbv zeta.
    apply journal_bind; [apply journal_call; split; reflexivity | intros r].
    destruct (snd r); [apply journal_ret|].
    apply journal_bind; [apply PushLog_journal | intros _; apply journal_ret]. }
  intros [repoPath|e]; [|apply final_journal].
  apply journal_bind.
  { unfold loadConfig. cbv zeta.
    apply journal_bind; [apply journal_call; split; reflexivity | intros r].
    destruct r; [|apply journal_ret].
    destruct (Unmarshal _ _ _ _) as (config & [err|]); apply journal_ret. }
  intros [config|e]; [|apply final_journal].
  apply journal_bind; [apply journal_call; split; reflexivity | intros [e|]].
  - apply final_journal.
  - apply run_steps_journal.
Qed.

End Journal.

(** X14. The server's own log mirrors the log table.  In a run that
    returns, the texts printed by [log.Println] are exactly the texts of
    the lines sent to the log table, in the same order: nothing is
    printed that is not stored, and nothing stored goes unprinted. *)
Theorem Run_prints_what_it_stores W (env : Env W) job w :
  returns (Run env job) w tt ->
  printed (trace (Run env job w)) = map text_of (stored_lines (trace (Run env job w))).
Proof.
  unfold returns. intros H. assert (J := Run_journal W env job w).
  rewrite H in J. exact J.
Qed.

Lemma Run_prints_what_it_stores_witness :
  let env := lab (Ok "steps: [{name: build, image: alpine, runs: make}]")
                 (manifest_of [mkStep "build" "alpine" "make"]) in
  printed (trace (Run env lab_job 0%nat)) =
  map text_of (stored_lines (trace (Run env lab_job 0%nat))).
Proof.
  intros env. apply (Run_prints_what_it_stores nat env lab_job 0%nat). reflexivity.
Defined.

(** X15. Where [log.Fatal] stops a run.  A run that does not return was
    stopped at a write the store refused: the last call it made is a log
    insert or a status update for its own job, and up to that call the
    server's log mirrors the log table, so the refused line is the one
    line sent to the store and never printed. *)
Theorem Run_stopped_at_refused_write W (env : Env W) job w e :
  out (Run env job w) = Fatal e ->
  exists t ev,
    trace (Run env job w) = (t ++ [ev])%list /\
    store_write ev /\ targets job ev /\
    printed t = map text_of (stored_lines t).
Proof.
  intros H. assert (J := Run_journal W env job w). rewrite H in J.
  destruct J as (t & ev & Et & Hs & Ht).
  exists t, ev. split; [exact Et|]. split; [exact Hs|]. split; [|exact Ht].
  assert (T := Run_targets W env job w). rewrite Et in T.
  apply Forall_app in T. destruct T as (_ & T). inversion T. assumption.
Qed.

Lemma Run_stopped_at_refused_write_witness :
  let env := lab_faulty (Ok "steps: [{name: build, image: alpine, runs: poison}]")
                        (manifest_of [mkStep "build" "alpine" "poison"]) in
  exists t ev,
    trace (Run env lab_job 0%nat) = (t ++ [ev])%list /\
    store_write ev /\ targets lab_job ev /\
    printed t = map text_of (stored_lines t).
Proof.
  intros env.
  apply (Run_stopped_at_refused_write nat env lab_job 0%nat "database is locked").
  reflexivity.
Defined.

(** ** The working directory of a job, read backwards *)

Lemma length_append_string (x y : string) :
  String.length (x ++ y) = (String.length x + String.length y)%nat.
Proof. induction x as [|c x IH]; cbn; [reflexivity | rewrite IH; reflexivity]. Qed.

Lemma append_inj_r (t x y : string) : x ++ t = y ++ t -> x = y.
Proof.
  revert y. induction x as [|c x IH]; intros [|d y] H; cbn in H.
  - reflexivity.
  - apply (f_equal String.length) in H. cbn in H. rewrite length_append_string in H. lia.
  - apply (f_equal String.length) in H. cbn in H. rewrite length_append_string in H. lia.
  - injection H as -> H. f_equal. apply IH. exact H.
Qed.

(** X16. The working directory of a job tells the project and the job:
    two jobs are cloned into the same directory only if they have the
    same id and their projects have the same name.  The branch and the
    repository take no part in the path. *)
Theorem repoPath_of_determines_project_and_job (j1 j2 : Job) :
  repoPath_of j1 = repoPath_of j2 ->
  Id j1 = Id j2 /\ ProjectName (JobProject j1) = ProjectName (JobProject j2).
Proof.
  intros H. assert (E := repoPath_of_inj_Id j1 j2 H). split; [exact E|].
  unfold repoPath_of in H. rewrite E in H. apply append_inj_l in H.
  apply append_inj_r in H. exact H.
Qed.

Lemma repoPath_of_determines_project_and_job_witness :
  let other := mkJob 7 "dev" "0" (mkProject 2 "demo" "https://example.org/fork.git") in
  Id lab_job = Id other /\ ProjectName (JobProject lab_job) = ProjectName (JobProject other).
Proof.
  intros other. apply (repoPath_of_determines_project_and_job lab_job other). reflexivity.
Defined.

(** ** The places a run touches *)

Section Confined.

Variable W : Type.
Variable env : Env W.
Variable job : Job.

Lemma emits_bind_at {A B} (P : Event -> Prop) (m : M W A) (f : A -> M W B) :
  emits P m ->
  (forall a w, returns m w a -> Forall P (trace (f a (world (m w))))) ->
  emits P (bind m f).
Proof.
  intros Hm Hf w. destruct (out (m w)) as [a|e] eqn:E.
  - rewrite (bind_done _ _ _ _ _ E). cbn [trace].
    apply Forall_app; split; [apply Hm | apply Hf; exact E].
  - rewrite (bind_fatal _ _ _ _ _ E). cbn [trace]. apply Hm.
Qed.

Lemma runStep_confined step :
  emits (confined env job) (runStep env job step (repoPath_of job)).
Proof.
  unfold runStep, ensureImage, createAndStartContainer, streamLogs, waitForContainer.
  cbv zeta.
  repeat first [apply emits_ret | apply emits_fatal | exact I | reflexivity
               | apply push_lines_emits; [reflexivity | intros; exact I]
               | apply PushLog_emits; [reflexivity | exact I]
               | split; [exists step; reflexivity | reflexivity]
               | emits_step].
Qed.

Lemma final_confined l status :
  emits (confined env job) (PushLog env job l ;;; updateJobStatus env job status).
Proof.
  apply emits_bind; [apply PushLog_emits; [reflexivity | exact I] | intros _].
  unfold updateJobStatus. alphabet_all.
Qed.

Lemma run_steps_confined steps :
  forall i, emits (confined env job) (run_steps env job (repoPath_of job) i steps).
Proof.
  induction steps as [|step rest IH]; intros i; cbn [run_steps].
  - apply final_confined.
  - apply emits_bind; [apply PushLog_emits; [reflexivity | exact I] | intros _].
    apply emits_bind; [apply runStep_confined | intros [e|]].
    + apply final_confined.
    + apply emits_bind; [apply PushLog_emits; [reflexivity | exact I] | intros _].
      apply IH.
Qed.

Lemma Run_confined : emits (confined env job) (Run env job).
Proof.
  unfold Run.
  apply emits_bind; [apply PushLog_emits; [reflexivity | exact I] | intros _].
  apply emits_bind_at.
  { unfold cloneRepository. cbv zeta.
    repeat first [apply emits_ret | exact I | apply PushLog_emits; [reflexivity | exact I]
                 | emits_step].
    repeat split. }
  intros [repoPath|e] w1 H1; [|apply final_confined].
  assert (repoPath = repoPath_of job) as ->.
  { unfold returns in H1. rewrite cloneRepository_eq in H1. cbv zeta in H1.
    destruct (snd (snd (git_clone env _ _ _ w1))); [discriminate H1|].
    cbn [out] in H1. destruct (out (PushLog env job _ _)); [|discriminate H1].
    injection H1 as <-. reflexivity. }
  match goal with |- Forall _ (trace (?m ?x)) => generalize x; intros w2 end.
  emits_goal.
  apply emits_bind.
  { intros w. rewrite loadConfig_trace. repeat constructor. }
  intros [config|e]; [|apply final_confined].
  apply emits_bind; [apply emits_call; exact I | intros [e|]].
  - apply final_confined.
  - apply run_steps_confined.
Qed.

End Confined.

(** X17. A run stays in the working directory of its job.  Whatever the
    environment answers: the only clone is of the job's branch of the
    project's repository into the job's directory; the only file read is
    [duck-ci.yml] in that directory; every step is run there; and every
    container the run creates is the container of a step ([/bin/sh -c]
    with the step's command, working directory [/app], a TTY) with that
    directory as its one bind, at [/app]. *)
Theorem Run_stays_in_its_directory W (env : Env W) job w :
  Forall (confined env job) (trace (Run env job w)).
Proof. apply Run_confined. Qed.
